(** * CryptoSteg: the LSB steganography codec of [static/steganography.js]

    A shallow embedding of the [Steganography] class: the text/bit-string
    helpers, [hideData] (capacity check, 32-bit length header, payload
    loop) and [extractData] (header read, length validation, bit
    collection, framing recovery).  The canvas, the PNG encoder and the
    CryptoJS cipher are outside the codec: the pixel buffer is the
    [ImageData.data] array, the cipher is an interface.  The second,
    older copy of the class that the repository holds is in [Attached]. *)

From Stdlib Require Import ZArith QArith Qround Lia List String Ascii DecimalString.
From stdpp Require Import base list.
Close Scope Q_scope.
Local Open Scope Z_scope.
Local Open Scope nat_scope.

(** ** JavaScript values used by the module *)

(** A JavaScript string is a sequence of UTF-16 code units. *)
Abbreviation jsstring := (list Z).

(** A string literal of the source, as its code units. *)
Definition lit (s : string) : jsstring :=
  map (fun a => Z.of_N (N_of_ascii a)) (list_ascii_of_string s).

(** A string made of the characters '0' and '1' only (what [toString(2)],
    [padStart(_, '0')] and [data[i] & 1] produce) is kept as its digits:
    [true] is '1', [false] is '0'. *)
Abbreviation binstring := (list bool).

(** [parseInt(c, 2)] of a single binary digit. *)
Definition digit (b : bool) : Z := if b then 1%Z else 0%Z.

(** The pixel buffer: [imageData.data], a [Uint8ClampedArray]. *)
Abbreviation buffer := (list Z).

(** [data[i]] used as an operand of [&]: a read past the end is
    [undefined], which [&] turns into 0. *)
Definition rd (data : buffer) (i : nat) : Z := default 0%Z (data !! i).

Module JS.

(** Binary digits of a positive number, most significant first. *)
Fixpoint posDigits (p : positive) (acc : binstring) : binstring :=
  match p with
  | xH => true :: acc
  | xO q => posDigits q (false :: acc)
  | xI q => posDigits q (true :: acc)
  end.

(** [n.toString(2)] for the numbers the module converts (string
    lengths and char codes, never negative). *)
Definition toString2 (n : Z) : binstring :=
  match n with
  | Zpos p => posDigits p []
  | _ => [false]
  end.

(** [s.padStart(n, '0')]. *)
Definition padStart (n : nat) (s : binstring) : binstring :=
  replicate (n - length s) false ++ s.

(** [parseInt(s, 2)] on a non-empty string of binary digits. *)
Definition parseInt2 (s : binstring) : Z :=
  fold_left (fun acc b => (2 * acc + digit b)%Z) s 0%Z.

(** [s.startsWith(p)]. *)
Fixpoint startsWith (p s : jsstring) : bool :=
  match p, s with
  | [], _ => true
  | _ :: _, [] => false
  | a :: p', b :: s' => (a =? b)%Z && startsWith p' s'
  end.

(** Position of the first occurrence of [p] in [s], counted from
    position [i] of the whole string. *)
Fixpoint search (p s : jsstring) (i : nat) : option nat :=
  if startsWith p s then Some i
  else match s with
       | [] => None
       | _ :: s' => search p s' (S i)
       end.

(** [s.indexOf(p)]: -1 when [p] does not occur. *)
Definition indexOf (p s : jsstring) : Z :=
  match search p s 0 with
  | Some i => Z.of_nat i
  | None => (-1)%Z
  end.

(** [s.includes(p)]. *)
Definition includes (p s : jsstring) : bool :=
  match search p s 0 with
  | Some _ => true
  | None => false
  end.

(** [s.substring(start)]: a negative start counts as 0. *)
Definition substringFrom (start : Z) (s : jsstring) : jsstring :=
  drop (Z.to_nat start) s.

(** [s.substring(0, n)]. *)
Definition substringTo (n : nat) (s : jsstring) : jsstring := take n s.

(** [s.split(p)[0]]: the text before the first occurrence of [p],
    the whole string when there is none. *)
Definition splitHead (p s : jsstring) : jsstring :=
  match search p s 0 with
  | Some i => take i s
  | None => s
  end.

(** [s.replace(/[^\x20-\x7E]/g, '')]. *)
Definition printable (c : Z) : bool := (32 <=? c)%Z && (c <=? 126)%Z.
Definition keepPrintable (s : jsstring) : jsstring := List.filter printable s.

End JS.

(** ** The helper methods of the class *)

(** [textToBinary]: each char code in binary, left-padded to 8 digits. *)
Definition textToBinary (text : jsstring) : binstring :=
  flat_map (fun charCode => JS.padStart 8 (JS.toString2 charCode)) text.

(** [binaryToText]: one char per complete group of 8 digits; a shorter
    last group is dropped ([byte.length === 8] fails). *)
Fixpoint binaryToText (binary : binstring) : jsstring :=
  match binary with
  | b0 :: b1 :: b2 :: b3 :: b4 :: b5 :: b6 :: b7 :: rest =>
      JS.parseInt2 [b0; b1; b2; b3; b4; b5; b6; b7] :: binaryToText rest
  | _ => []
  end.

(** [numberToBinary]. *)
Definition numberToBinary (number : Z) (bitLength : nat) : binstring :=
  JS.padStart bitLength (JS.toString2 number).

(** [calculateMaxTextLength(image)]: [Math.floor(width * height * 3 / 8)]. *)
Definition calculateMaxTextLength (width height : Z) : Z :=
  Qfloor (inject_Z (width * height * 3) / 8)%Q.

(** ** Collaborators and outcomes *)

(** The part of CryptoJS the module calls.  [AES_decrypt c k] is the
    whole expression [CryptoJS.AES.decrypt(c, k).toString(CryptoJS.enc.Utf8)];
    [None] stands for an exception thrown by it. *)
Class CryptoJS := {
  AES_encrypt : jsstring -> jsstring -> jsstring;
  AES_decrypt : jsstring -> jsstring -> option jsstring
}.

(** The errors the two promises are rejected with. *)
Inductive error : Type :=
| DataTooLarge (maxDataSize : Z)
| NoHiddenData
| NoFormatOrEndMarker
| PasswordRequired
| DecryptionFailed
| UnknownFormat
| ConstAssignment.

(** The message carried by each error. *)
Definition message (e : error) : string :=
  match e with
  | DataTooLarge maxDataSize =>
      "Data too large for this image. Maximum: "
      ++ NilZero.string_of_int (Z.to_int maxDataSize) ++ " characters"
  | NoHiddenData => "No hidden data found or invalid data"
  | NoFormatOrEndMarker =>
      "Data extraction failed: No valid data format or end marker found"
  | PasswordRequired => "This data is encrypted. Please provide a password."
  | DecryptionFailed => "Decryption failed: Incorrect password or corrupted data"
  | UnknownFormat => "Unknown data format. Could not extract hidden text."
  | ConstAssignment => "Assignment to constant variable."
  end%string.

(** How a promise settles. *)
Inductive outcome (A : Type) : Type :=
| Resolved (a : A)
| Rejected (e : error).
Arguments Resolved {A} a.
Arguments Rejected {A} e.

(** The pixel buffer together with the indices assigned so far, in the
    order of the assignments. *)
Record store : Type := Store { buf : buffer; writes : list nat }.

(** [data[i] = v].  A typed array drops an assignment past its end. *)
Definition assign (i : nat) (v : Z) (st : store) : store :=
  {| buf := <[i := v]> (buf st); writes := writes st ++ [i] |}.

(** A string in a boolean position: only the empty string is false. *)
Definition truthy (s : jsstring) : bool :=
  match s with [] => false | _ :: _ => true end.

(** [x > q] for an integer [x] and a quotient [q] of a JavaScript division. *)
Definition gtQ (x : Z) (q : Q) : bool := negb (Qle_bool (inject_Z x) q).

(** ** hideData *)

(** [Math.floor((data.length / 4) * 3 / 8)]. *)
Definition maxDataSizeOf (data : buffer) : Z :=
  Qfloor (inject_Z (Z.of_nat (length data)) / 4 * 3 / 8)%Q.

(** [(data[i] & 0xFE) | bit]. *)
Definition setLSB (x : Z) (b : bool) : Z := Z.lor (Z.land x 254) (digit b).

(** The byte the payload loop computes for payload bit [i]:
    [32 + i + Math.floor((32 + i) / 3)]. *)
Definition addr (i : nat) : nat := 32 + i + (32 + i) / 3.

(** Body of the header loop. *)
Definition hideHeaderStep (dataLengthBinary : binstring) (st : store) (i : nat) : store :=
  assign i (setLSB (rd (buf st) i) (nth i dataLengthBinary false)) st.

(** The payload loop body once [dataIndex] is known: [continue] on an
    alpha index, else a guarded rewrite of bit 0. *)
Definition hideBitAt (dataIndex : nat) (bit : bool) (st : store) : store :=
  if (dataIndex + 1) mod 4 =? 0 then st
  else if dataIndex <? length (buf st)
       then assign dataIndex (setLSB (rd (buf st) dataIndex) bit) st
       else st.

(** Body of the payload loop. *)
Definition hidePayloadStep (binaryData : binstring) (st : store) (i : nat) : store :=
  hideBitAt (addr i) (nth i binaryData false) st.

(** The string that is embedded: prefix, (encrypted) text, end marker. *)
Definition dataToHideOf {crypto : CryptoJS} (text password : jsstring) : jsstring :=
  let processedText :=
    if truthy password && (0 <? length password)
    then AES_encrypt text password else text in
  let prefix := if truthy password then lit "ENC:" else lit "TXT:" in
  prefix ++ processedText ++ lit "<<EOF>>".

(** [hideData], from the pixel buffer of the drawn image to the buffer
    put back on the canvas (with the assignments made on the way). *)
Definition hideData {crypto : CryptoJS} (data : buffer) (text password : jsstring)
  : outcome store :=
  let maxDataSize := maxDataSizeOf data in
  let dataToHide := dataToHideOf text password in
  if (maxDataSize <? Z.of_nat (length dataToHide))%Z
  then Rejected (DataTooLarge maxDataSize)
  else
    let binaryData := textToBinary dataToHide in
    let dataLengthBinary := numberToBinary (Z.of_nat (length dataToHide)) 32 in
    let st := fold_left (hideHeaderStep dataLengthBinary) (seq 0 32)
                {| buf := data; writes := [] |} in
    let st := fold_left (hidePayloadStep binaryData)
                (seq 0 (length binaryData)) st in
    Resolved st.

(** ** extractData *)

(** The length header: bit 0 of the first 32 bytes, read as a binary number. *)
Definition readHeader (data : buffer) : Z :=
  JS.parseInt2 (map (fun i => Z.testbit (rd data i) 0) (seq 0 32)).

(** The bit-collection loop
    [for (let i = 32; bitCount < bitsToExtract; i++)].
    Each unit of [fuel] pays for one test of the loop condition; [None]
    means the fuel ran out before the condition became false. *)
Fixpoint collectBits (fuel : nat) (data : buffer) (bitsToExtract : Z)
    (i : nat) (bitCount : Z) (extractedBinary : binstring) : option binstring :=
  match fuel with
  | O => None
  | S fuel' =>
      if (bitCount <? bitsToExtract)%Z then
        if (i + 1) mod 4 =? 0
        then collectBits fuel' data bitsToExtract (S i) bitCount extractedBinary
        else if i <? length data
             then collectBits fuel' data bitsToExtract (S i) (bitCount + 1)%Z
                    (extractedBinary ++ [Z.testbit (rd data i) 0])
             else collectBits fuel' data bitsToExtract (S i) bitCount extractedBinary
      else Some extractedBinary
  end.

Inductive dataType : Type := unknown | encrypted | plaintext.

(** The text left after cutting at the end marker. *)
Definition cleanTextOf (extractedText : jsstring) : jsstring :=
  if JS.includes (lit "<<EOF>>") extractedText
  then JS.splitHead (lit "<<EOF>>") extractedText
  else extractedText.

(** The format inference: the tag and the text after it. *)
Definition inferFormat (cleanText : jsstring) : dataType * jsstring :=
  if JS.startsWith (lit "ENC:") cleanText
  then (encrypted, JS.substringFrom 4 cleanText)
  else if JS.startsWith (lit "TXT:") cleanText
  then (plaintext, JS.substringFrom 4 cleanText)
  else if JS.includes (lit "ENC:") (JS.substringTo 20 cleanText)
  then (encrypted, JS.substringFrom (JS.indexOf (lit "ENC:") cleanText + 4) cleanText)
  else if JS.includes (lit "TXT:") (JS.substringTo 20 cleanText)
  then (plaintext, JS.substringFrom (JS.indexOf (lit "TXT:") cleanText + 4) cleanText)
  else (unknown, cleanText).

(** The branch taken for encrypted data. *)
Definition decryptText {crypto : CryptoJS} (processedText password : jsstring)
  : outcome jsstring :=
  if negb (truthy password) then Rejected PasswordRequired
  else match AES_decrypt processedText password with
       | Some decrypted =>
           if truthy decrypted then Resolved decrypted
           else Rejected DecryptionFailed
       | None => Rejected DecryptionFailed
       end.

(** Everything [extractData] does with the extracted text. *)
Definition processExtracted {crypto : CryptoJS} (extractedText password : jsstring)
  : outcome jsstring :=
  if negb (JS.includes (lit "<<EOF>>") extractedText)
     && negb (JS.includes (lit "TXT:") extractedText
              || JS.includes (lit "ENC:") extractedText)
  then Rejected NoFormatOrEndMarker
  else
    let cleanText := cleanTextOf extractedText in
    match inferFormat cleanText with
    | (encrypted, processedText) => decryptText processedText password
    | (plaintext, processedText) => Resolved processedText
    | (unknown, _) =>
        let possibleText := JS.keepPrintable cleanText in
        if 10 <? length possibleText
        then Resolved (lit "Partial recovery: " ++ possibleText)
        else Rejected UnknownFormat
    end.

(** [extractData] on the pixel buffer of the drawn image.  [None]: the
    collection loop did not finish within [fuel] tests of its condition. *)
Definition extractData {crypto : CryptoJS} (fuel : nat) (data : buffer)
    (password : jsstring) : option (outcome jsstring) :=
  let dataLength := readHeader data in
  if (dataLength <=? 0)%Z
     || gtQ dataLength (inject_Z (Z.of_nat (length data)) / 4)%Q
  then Some (Rejected NoHiddenData)
  else
    let bitsToExtract := (dataLength * 8)%Z in
    match collectBits fuel data bitsToExtract 32 0%Z [] with
    | None => None
    | Some extractedBinary =>
        Some (processExtracted (binaryToText extractedBinary) password)
    end.

(** ** Fixtures *)

(** A cipher for closed examples: it leaves the text as it is. *)
Definition plainCrypto : CryptoJS :=
  {| AES_encrypt := fun text _ => text;
     AES_decrypt := fun text _ => Some text |}.

(** A fully transparent black image of [pixels] pixels. *)
Definition blank (pixels : nat) : buffer := replicate (4 * pixels) 0%Z.

(** The buffer [hideData] leaves on the canvas, [data] itself when the
    promise is rejected. *)
Definition embedded (data : buffer) (text : jsstring) : buffer :=
  match hideData (crypto := plainCrypto) data text [] with
  | Resolved st => buf st
  | Rejected _ => data
  end.

(** A carrier image for a given extracted text: the header holds the
    length of [text], and the digits of [text] sit on the colour bytes
    that the collection loop reads (an opaque alpha byte after every
    three of them). *)
Fixpoint withAlpha (samples : list Z) : buffer :=
  match samples with
  | r :: g :: b :: rest => r :: g :: b :: 255%Z :: withAlpha rest
  | short => short
  end.

Definition carrierOf (text : jsstring) : buffer :=
  map digit (numberToBinary (Z.of_nat (length text)) 32)
  ++ withAlpha (map digit (textToBinary text)).

(** A 3x3 image whose header bits spell the length 1. *)
Definition tinyImage : buffer := replicate 31 0%Z ++ [1%Z] ++ replicate 4 0%Z.

(** A concrete embedding used to instantiate the theorems below: the
    text "hello", no password, in a blank image of 100 pixels. *)
Definition helloStore : store :=
  match hideData (crypto := plainCrypto) (blank 100) (lit "hello") [] with
  | Resolved st => st
  | Rejected _ => {| buf := []; writes := [] |}
  end.

(** The bits the collection loop reads back from the "hello" image. *)
Definition helloBits : list bool :=
  match collectBits 200 (buf helloStore)
          (readHeader (buf helloStore) * 8) 32 0%Z [] with
  | Some extractedBinary => extractedBinary
  | None => []
  end.

(** A text of 23 chars in a blank image of 100 pixels: framed, it has 34
    chars, three below the computed maximum of 37. *)
Definition crowdedText : list Z := replicate 23 97%Z.

Definition crowdedStore : store :=
  match hideData (crypto := plainCrypto) (blank 100) crowdedText [] with
  | Resolved st => st
  | Rejected _ => {| buf := []; writes := [] |}
  end.

(** A carrier whose extracted text has neither a tag nor an end marker. *)
Definition bareCarrier : list Z := carrierOf (lit "Hello, world").

(** A carrier whose extracted text has an end marker and no tag. *)
Definition untaggedCarrier : list Z := carrierOf (lit "Hello, world<<EOF>>").

Definition untaggedBits : list bool :=
  match collectBits 400 untaggedCarrier
          (readHeader untaggedCarrier * 8) 32 0%Z [] with
  | Some extractedBinary => extractedBinary
  | None => []
  end.

(** A cipher for closed examples that does change the text: it turns
    the text round. *)
Definition reversingCrypto : CryptoJS :=
  {| AES_encrypt := fun text _ => rev text;
     AES_decrypt := fun text _ => Some (rev text) |}.

(** A carrier whose extracted text has the tag 'ENC:' one char late. *)
Definition lateEncCarrier : list Z := carrierOf (lit "~ENC:terces<<EOF>>").

Definition lateEncBits : list bool :=
  match collectBits 400 lateEncCarrier
          (readHeader lateEncCarrier * 8) 32 0%Z [] with
  | Some extractedBinary => extractedBinary
  | None => []
  end.

(** The colour (non-alpha) indices from [i] to the end of the buffer. *)
Definition colourIndices (data : list Z) (i : nat) : list nat :=
  List.filter (fun j => negb ((j + 1) mod 4 =? 0)) (seq i (length data - i)).

(** ** The older copy of the module

    The repository holds a second copy of the class.  Its [hideData], its
    header check and its collection loop are the ones above; it differs in
    [binaryToText], in [calculateMaxTextLength] and in the way the format
    inference hands the text on. *)
Module Attached.

(** [binaryToText]: the digits are first padded with '0' up to a
    multiple of 8, so a shorter last group still gives a char. *)
Fixpoint binaryToText (binary : binstring) : jsstring :=
  match binary with
  | [] => []
  | b0 :: b1 :: b2 :: b3 :: b4 :: b5 :: b6 :: b7 :: rest =>
      JS.parseInt2 [b0; b1; b2; b3; b4; b5; b6; b7] :: binaryToText rest
  | partial =>
      [JS.parseInt2 (partial ++ replicate (8 - length partial) false)]
  end.

(** [calculateMaxTextLength]: [Math.floor(bitsAvailable / 8) - 20]. *)
Definition calculateMaxTextLength (width height : Z) : Z :=
  (Qfloor (inject_Z (width * height * 3) / 8)%Q - 20)%Z.

(** The text handling of this copy.  [cleanText] is declared [const],
    and the two recovery branches assign to it: the assignment throws,
    and the promise is rejected with that TypeError. *)
Definition processExtracted {crypto : CryptoJS}
    (extractedText password : jsstring) : outcome jsstring :=
  if negb (JS.includes (lit "<<EOF>>") extractedText)
     && negb (JS.includes (lit "TXT:") extractedText
              || JS.includes (lit "ENC:") extractedText)
  then Rejected NoFormatOrEndMarker
  else
    let cleanText := cleanTextOf extractedText in
    if JS.startsWith (lit "ENC:") cleanText
    then decryptText (JS.substringFrom 4 cleanText) password
    else if JS.startsWith (lit "TXT:") cleanText
    then Resolved (JS.substringFrom 4 cleanText)
    else if JS.includes (lit "ENC:") (JS.substringTo 20 cleanText)
    then Rejected ConstAssignment
    else if JS.includes (lit "TXT:") (JS.substringTo 20 cleanText)
    then Rejected ConstAssignment
    else
      let possibleText := JS.keepPrintable cleanText in
      if 10 <? length possibleText
      then Resolved (lit "Partial recovery: " ++ possibleText)
      else Rejected UnknownFormat.

Definition extractData {crypto : CryptoJS} (fuel : nat) (data : buffer)
    (password : jsstring) : option (outcome jsstring) :=
  let dataLength := readHeader data in
  if (dataLength <=? 0)%Z
     || gtQ dataLength (inject_Z (Z.of_nat (length data)) / 4)%Q
  then Some (Rejected NoHiddenData)
  else
    let bitsToExtract := (dataLength * 8)%Z in
    match collectBits fuel data bitsToExtract 32 0%Z [] with
    | None => None
    | Some extractedBinary =>
        Some (processExtracted (binaryToText extractedBinary) password)
    end.

(** ['0'.repeat(count)]: a negative count throws a RangeError. *)
Definition repeatZeros (count : Z) : option binstring :=
  if (count <? 0)%Z then None else Some (replicate (Z.to_nat count) false).

(** [textToBinary] of this copy: each char code in binary behind
    ['0'.repeat(8 - bin.length)].  [None]: the RangeError of [repeat]. *)
Fixpoint textToBinary (text : jsstring) : option binstring :=
  match text with
  | [] => Some []
  | charCode :: rest =>
      let bin := JS.toString2 charCode in
      match repeatZeros (8 - Z.of_nat (length bin)) with
      | None => None
      | Some zeros =>
          match textToBinary rest with
          | None => None
          | Some binary => Some ((zeros ++ bin) ++ binary)
          end
      end
  end.

(** [numberToBinary] of this copy: ['0'.repeat(length - bin.length) + bin]. *)
Definition numberToBinary (num : Z) (bitLength : nat) : option binstring :=
  let bin := JS.toString2 num in
  match repeatZeros (Z.of_nat bitLength - Z.of_nat (length bin)) with
  | None => None
  | Some zeros => Some (zeros ++ bin)
  end.

(** What the promise of this copy's [hideData] is rejected with: an error
    of the module, or the RangeError of a helper. *)
Inductive failure : Type :=
| Failed (e : error)
| InvalidCount.

(** [hideData] of this copy: the capacity check, the two conversions
    (either may throw), then the header loop and the payload loop. *)
Definition hideData {crypto : CryptoJS} (data : buffer) (text password : jsstring)
  : store + failure :=
  let maxDataSize := maxDataSizeOf data in
  let dataToHide := dataToHideOf text password in
  if (maxDataSize <? Z.of_nat (length dataToHide))%Z
  then inr (Failed (DataTooLarge maxDataSize))
  else
    match textToBinary dataToHide with
    | None => inr InvalidCount
    | Some binaryData =>
        match numberToBinary (Z.of_nat (length dataToHide)) 32 with
        | None => inr InvalidCount
        | Some dataLengthBinary =>
            let st := fold_left (hideHeaderStep dataLengthBinary) (seq 0 32)
                        {| buf := data; writes := [] |} in
            let st := fold_left (hidePayloadStep binaryData)
                        (seq 0 (length binaryData)) st in
            inl st
        end
    end.

End Attached.

(** ** The encryption module

    The [Encryption] class: the Caesar cipher of the module itself and the
    dispatch of [encrypt] and [decrypt] over the CryptoJS ciphers. *)
Module Encryption.

(** A call that returns or throws [new Error(message)]. *)
Inductive thrown (A : Type) : Type :=
| Returned (a : A)
| Threw (message : string).
Arguments Returned {A} a.
Arguments Threw {A} message.

(** The [shift] argument as the callers pass it: the text of an input
    field, or an integer number (the default 3). *)
Inductive shiftArg : Type :=
| ShiftText (s : jsstring)
| ShiftNumber (n : Z).

(** The ciphers of CryptoJS that the module dispatches to. *)
Inductive cipherName : Type := AES | DES | TripleDES | Rabbit | RC4.

(** The result of [CryptoJS.X.encrypt]: its [toString()] and the
    [toString()] of its [ciphertext]. *)
Record cipherText : Type :=
  { asText : jsstring; ciphertextHex : jsstring }.

(** The built-ins and the library calls of the module.  [parseInt s] is
    [parseInt] on a string ([None] is NaN); [exponentForm n] is
    [String(n)] for an integer number [n] of magnitude 10^21 or more,
    which is printed with an exponent ('1e+21'); [hexParams s] is the
    CipherParams made from [CryptoJS.enc.Hex.parse(s)]; [decryptUtf8] is
    [CryptoJS.X.decrypt(cipherParams, key).toString(CryptoJS.enc.Utf8)]. *)
Class Library : Type := {
  parseInt : jsstring -> option Z;
  exponentForm : Z -> jsstring;
  CipherParams : Type;
  hexParams : jsstring -> thrown CipherParams;
  cipherEncrypt : cipherName -> jsstring -> jsstring -> thrown cipherText;
  decryptUtf8 : cipherName -> jsstring + CipherParams -> jsstring -> thrown jsstring
}.

(** [parseInt(shift)].  [parseInt] reads its argument as a string.  An
    integer number below 10^21 in magnitude is printed as its decimal
    digits, which read back as the number itself; from 10^21 on it is
    printed with an exponent, and [parseInt] reads that text. *)
Definition parseShift {lib : Library} (shift : shiftArg) : option Z :=
  match shift with
  | ShiftText s => parseInt s
  | ShiftNumber n =>
      if (Z.abs n <? 10 ^ 21)%Z then Some n else parseInt (exponentForm n)
  end.

(** [algorithm === 'name']. *)
Definition named (name : string) (algorithm : jsstring) : bool :=
  bool_decide (algorithm = lit name).

(** The char of the Caesar cipher for one code unit. *)
Definition shiftChar (shift code : Z) : Z :=
  if (65 <=? code)%Z && (code <=? 90)%Z
  then (Z.rem (code - 65 + shift) 26 + 65)%Z
  else if (97 <=? code)%Z && (code <=? 122)%Z
  then (Z.rem (code - 97 + shift) 26 + 97)%Z
  else code.

(** [caesarCipher]. *)
Definition caesarCipher {lib : Library} (text : jsstring) (shift : shiftArg)
  : thrown jsstring :=
  match parseShift shift with
  | None => Threw "Caesar shift must be between 1 and 25"
  | Some shift =>
      if (shift <? 1)%Z || (25 <? shift)%Z
      then Threw "Caesar shift must be between 1 and 25"
      else Returned (map (shiftChar shift) text)
  end.

(** [caesarDecipher]: the cipher with the shift [26 - shift]. *)
Definition caesarDecipher {lib : Library} (text : jsstring) (shift : shiftArg)
  : thrown jsstring :=
  match parseShift shift with
  | None => Threw "Caesar shift must be between 1 and 25"
  | Some shift =>
      if (shift <? 1)%Z || (25 <? shift)%Z
      then Threw "Caesar shift must be between 1 and 25"
      else
        let decryptShift := (26 - shift)%Z in
        Returned (map (shiftChar decryptShift) text)
  end.

(** [options.caesarShift || 3]: an absent option, the empty text and the
    number 0 give the default. *)
Definition shiftOrDefault (caesarShift : option shiftArg) : shiftArg :=
  match caesarShift with
  | None => ShiftNumber 3
  | Some (ShiftText []) => ShiftNumber 3
  | Some (ShiftNumber 0%Z) => ShiftNumber 3
  | Some shift => shift
  end.

(** The [catch] of both methods: the message behind a prefix. *)
Definition rethrow {A : Type} (prefix : string) (r : thrown A) : thrown A :=
  match r with
  | Returned a => Returned a
  | Threw message => Threw (prefix ++ message)
  end.

(** The [switch] on the algorithm, for the ciphers of CryptoJS. *)
Definition cipherOf (algorithm : jsstring) : option cipherName :=
  if named "aes" algorithm then Some AES
  else if named "des" algorithm then Some DES
  else if named "tripledes" algorithm then Some TripleDES
  else if named "rabbit" algorithm then Some Rabbit
  else if named "rc4" algorithm then Some RC4
  else None.

(** [encrypt(text, key, algorithm, outputFormat, options)]. *)
Definition encrypt {lib : Library} (text key algorithm outputFormat : jsstring)
    (caesarShift : option shiftArg) : thrown jsstring :=
  if negb (truthy text) then Threw "Please enter text to encrypt"
  else if negb (truthy key) && negb (named "caesar" algorithm)
  then Threw "Please enter an encryption key"
  else
    rethrow "Encryption failed: "
      match cipherOf algorithm with
      | Some name =>
          match cipherEncrypt name text key with
          | Threw message => Threw message
          | Returned result =>
              if named "hex" outputFormat
              then Returned (ciphertextHex result)
              else Returned (asText result)
          end
      | None =>
          if named "caesar" algorithm
          then caesarCipher text (shiftOrDefault caesarShift)
          else Threw "Unknown encryption algorithm"
      end.

(** [decrypt(encryptedText, key, algorithm, inputFormat, options)]. *)
Definition decrypt {lib : Library} (encryptedText key algorithm inputFormat : jsstring)
    (caesarShift : option shiftArg) : thrown jsstring :=
  if negb (truthy encryptedText) then Threw "Please enter text to decrypt"
  else if negb (truthy key) && negb (named "caesar" algorithm)
  then Threw "Please enter a decryption key"
  else
    rethrow "Decryption failed: "
      (if named "caesar" algorithm
       then caesarDecipher encryptedText (shiftOrDefault caesarShift)
       else
         match (if named "hex" inputFormat
                then match hexParams encryptedText with
                     | Returned params => Returned (inr params)
                     | Threw message => Threw message
                     end
                else Returned (inl encryptedText)) with
         | Threw message => Threw message
         | Returned cipherParams =>
             match cipherOf algorithm with
             | None => Threw "Unknown decryption algorithm"
             | Some name =>
                 match decryptUtf8 name cipherParams key with
                 | Threw message => Threw message
                 | Returned result =>
                     if negb (truthy result)
                     then Threw "Incorrect key or corrupted data"
                     else Returned result
                 end
             end
         end).

(** A library for closed examples. *)

(** The white space that [parseInt] skips in front of the number. *)
Definition whiteSpace (c : Z) : bool :=
  existsb (Z.eqb c)
    [9; 10; 11; 12; 13; 32; 160; 5760; 8232; 8233; 8239; 8287; 12288; 65279]%Z
  || ((8192 <=? c)%Z && (c <=? 8202)%Z).

Fixpoint skipWhiteSpace (s : jsstring) : jsstring :=
  match s with
  | c :: rest => if whiteSpace c then skipWhiteSpace rest else s
  | [] => []
  end.

(** The value of a digit in radix 10 or 16. *)
Definition digitOf (radix c : Z) : option Z :=
  if (48 <=? c)%Z && (c <=? 57)%Z then Some (c - 48)%Z
  else if (radix =? 16)%Z && (97 <=? c)%Z && (c <=? 102)%Z then Some (c - 87)%Z
  else if (radix =? 16)%Z && (65 <=? c)%Z && (c <=? 70)%Z then Some (c - 55)%Z
  else None.

(** The digits in front of the first char that is no digit; [acc] is the
    value read so far, [None] while no digit has been read. *)
Fixpoint readDigits (radix : Z) (s : jsstring) (acc : option Z) : option Z :=
  match s with
  | [] => acc
  | c :: rest =>
      match digitOf radix c with
      | Some d =>
          readDigits radix rest
            (Some (radix * (match acc with Some n => n | None => 0 end) + d)%Z)
      | None => acc
      end
  end.

(** [parseInt] on a string, without a radix: white space, a sign, the
    prefix '0x' or '0X' for radix 16, then the digits; NaN when there is
    no digit.  The value is the number read, not rounded to a double. *)
Definition parseIntOfText (s : jsstring) : option Z :=
  let s := skipWhiteSpace s in
  let '(sign, s) :=
    match s with
    | 45%Z :: rest => ((-1)%Z, rest)
    | 43%Z :: rest => (1%Z, rest)
    | _ => (1%Z, s)
    end in
  let '(radix, s) :=
    match s with
    | 48%Z :: 120%Z :: rest => (16%Z, rest)
    | 48%Z :: 88%Z :: rest => (16%Z, rest)
    | _ => (10%Z, s)
    end in
  option_map (Z.mul sign) (readDigits radix s None).

(** The decimal digits of a number that is not negative. *)
Definition decimalDigits (n : Z) : jsstring :=
  lit (NilZero.string_of_uint (N.to_uint (Z.to_N n))).

Fixpoint dropZeros (s : jsstring) : jsstring :=
  match s with
  | 48%Z :: rest => dropZeros rest
  | _ => s
  end.

(** The exponent form of an integer: a sign, the first digit, the other
    digits behind a '.' (without the zeros at the end), 'e+' and the
    exponent.  It is written with the digits of the integer itself; an
    engine prints the shortest digits that read back as the same
    double. *)
Definition exponentFormOf (n : Z) : jsstring :=
  let digits := decimalDigits (Z.abs n) in
  let fraction := rev (dropZeros (rev (drop 1 digits))) in
  (if (n <? 0)%Z then lit "-" else [])
  ++ take 1 digits
  ++ (match fraction with [] => [] | _ => lit "." ++ fraction end)
  ++ lit "e+" ++ decimalDigits (Z.of_nat (length digits - 1)).

(** The ciphers of this library leave the text as it is. *)
Definition plainLibrary : Library :=
  {| parseInt := parseIntOfText;
     exponentForm := exponentFormOf;
     CipherParams := jsstring;
     hexParams := fun s => Returned s;
     cipherEncrypt := fun _ text _ => Returned {| asText := text; ciphertextHex := text |};
     decryptUtf8 := fun _ input _ =>
       Returned (match input with inl s => s | inr s => s end) |}.

End Encryption.

(** * Properties *)

(** ** Arithmetic of the payload address *)

Lemma addr_split (i : nat) :
  addr i = 4 * ((32 + i) / 3) + (32 + i) mod 3.
Proof.
  unfold addr. pose proof (Nat.div_mod_eq (32 + i) 3). lia.
Qed.

Lemma addr_colour (i : nat) : (addr i + 1) mod 4 <> 0.
Proof.
  rewrite addr_split.
  pose proof (Nat.mod_upper_bound (32 + i) 3).
  intros E. apply Nat.Div0.mod_divides in E as [c Hc]. lia.
Qed.

Lemma addr_lower (i : nat) : 42 <= addr i.
Proof. unfold addr. pose proof (Nat.Div0.div_le_mono 32 (32 + i) 3).
  assert (32 / 3 = 10) by reflexivity. lia. Qed.

Lemma addr_mono (i j : nat) : i < j -> addr i < addr j.
Proof.
  intros Hij. unfold addr.
  pose proof (Nat.Div0.div_le_mono (32 + i) (32 + j) 3). lia.
Qed.

Lemma addr_inj (i j : nat) : addr i = addr j -> i = j.
Proof.
  intros E. destruct (Nat.lt_trichotomy i j) as [H | [H | H]]; auto;
    apply addr_mono in H; lia.
Qed.

(** ** Reads and assignments on the store *)

Lemma rd_lookup (data : buffer) (i : nat) (x : Z) :
  data !! i = Some x -> rd data i = x.
Proof. unfold rd. intros ->. reflexivity. Qed.

Lemma rd_past_end (data : buffer) (i : nat) : length data <= i -> rd data i = 0%Z.
Proof. intros H. unfold rd. rewrite lookup_ge_None_2; [reflexivity | lia]. Qed.

Lemma length_assign (i : nat) (v : Z) (st : store) :
  length (buf (assign i v st)) = length (buf st).
Proof. simpl. apply length_insert. Qed.

Lemma rd_assign_same (i : nat) (v : Z) (st : store) :
  i < length (buf st) -> rd (buf (assign i v st)) i = v.
Proof.
  intros H. simpl. apply rd_lookup. apply list_lookup_insert_eq. exact H.
Qed.

Lemma rd_assign_other (i j : nat) (v : Z) (st : store) :
  i <> j -> rd (buf (assign i v st)) j = rd (buf st) j.
Proof.
  intros H. unfold rd. simpl. rewrite list_lookup_insert_ne; auto.
Qed.

Lemma buffer_ext (a b : buffer) :
  length a = length b -> (forall j, rd a j = rd b j) -> a = b.
Proof.
  intros Hlen Hrd. apply list_eq. intros j.
  destruct (a !! j) as [x |] eqn:Ea; destruct (b !! j) as [y |] eqn:Eb.
  - specialize (Hrd j). unfold rd in Hrd. rewrite Ea, Eb in Hrd. simpl in Hrd.
    congruence.
  - apply lookup_lt_Some in Ea. apply lookup_ge_None in Eb. lia.
  - apply lookup_ge_None in Ea. apply lookup_lt_Some in Eb. lia.
  - reflexivity.
Qed.

(** ** Bit 0 and the other bits of a rewritten byte *)

Lemma setLSB_bit0 (x : Z) (b : bool) : Z.testbit (setLSB x b) 0 = b.
Proof.
  unfold setLSB. rewrite Z.lor_spec, Z.land_spec.
  replace (Z.testbit 254 0) with false by reflexivity.
  rewrite andb_false_r. destruct b; reflexivity.
Qed.

Lemma digit_high (b : bool) (k : Z) : (1 <= k)%Z -> Z.testbit (digit b) k = false.
Proof.
  intros Hk. destruct b; simpl.
  - destruct k; try lia; reflexivity.
  - apply Z.testbit_0_l.
Qed.

Lemma mask_bits (k : Z) : (1 <= k <= 7)%Z -> Z.testbit 254 k = true.
Proof.
  intros Hk.
  assert (k = 1 \/ k = 2 \/ k = 3 \/ k = 4 \/ k = 5 \/ k = 6 \/ k = 7)%Z
    as Hc by lia.
  destruct Hc as [-> | [-> | [-> | [-> | [-> | [-> | ->]]]]]]; reflexivity.
Qed.

Lemma setLSB_high (x : Z) (b : bool) (k : Z) :
  (1 <= k <= 7)%Z -> Z.testbit (setLSB x b) k = Z.testbit x k.
Proof.
  intros Hk. unfold setLSB. rewrite Z.lor_spec, Z.land_spec.
  rewrite mask_bits by exact Hk. rewrite digit_high by lia.
  rewrite andb_true_r, orb_false_r. reflexivity.
Qed.

(** ** The header loop *)

Section HeaderLoop.
Variable dataLengthBinary : list bool.

Local Abbreviation run a n st :=
  (fold_left (hideHeaderStep dataLengthBinary) (seq a n) st).

Lemma header_length (n a : nat) (st : store) :
  length (buf (run a n st)) = length (buf st).
Proof.
  revert a st. induction n as [| n IH]; intros a st; [reflexivity |].
  simpl. rewrite IH. apply length_assign.
Qed.

Lemma header_writes (n a : nat) (st : store) :
  writes (run a n st) = writes st ++ seq a n.
Proof.
  revert a st. induction n as [| n IH]; intros a st.
  - simpl. symmetry. apply app_nil_r.
  - simpl. rewrite IH. simpl. rewrite <- app_assoc.
    reflexivity.
Qed.

Lemma header_outside (n a : nat) (st : store) (j : nat) :
  j < a \/ a + n <= j -> rd (buf (run a n st)) j = rd (buf st) j.
Proof.
  revert a st. induction n as [| n IH]; intros a st Hj; [reflexivity |].
  simpl. rewrite IH by lia.
  unfold hideHeaderStep. apply rd_assign_other. lia.
Qed.

Lemma header_inside (n a : nat) (st : store) (j : nat) :
  a <= j < a + n -> j < length (buf st) ->
  rd (buf (run a n st)) j = setLSB (rd (buf st) j) (nth j dataLengthBinary false).
Proof.
  revert a st. induction n as [| n IH]; intros a st Hj Hlen; [lia |].
  simpl.
  destruct (Nat.eq_dec j a) as [-> | Hne].
  - rewrite header_outside by lia.
    unfold hideHeaderStep. apply rd_assign_same. exact Hlen.
  - rewrite IH.
    + unfold hideHeaderStep. rewrite rd_assign_other by lia. reflexivity.
    + lia.
    + unfold hideHeaderStep. rewrite length_assign. exact Hlen.
Qed.
End HeaderLoop.

(** ** The payload loop *)

Section PayloadLoop.
Variable binaryData : list bool.

Local Abbreviation run a n st :=
  (fold_left (hidePayloadStep binaryData) (seq a n) st).

(** The alpha test of the loop body never fires: the body is a guarded
    assignment at [addr i]. *)
Lemma payload_step (st : store) (i : nat) :
  hidePayloadStep binaryData st i =
  if addr i <? length (buf st)
  then assign (addr i) (setLSB (rd (buf st) (addr i)) (nth i binaryData false)) st
  else st.
Proof.
  unfold hidePayloadStep, hideBitAt.
  destruct ((addr i + 1) mod 4 =? 0) eqn:E; [| reflexivity].
  apply Nat.eqb_eq in E. exfalso. exact (addr_colour i E).
Qed.

Lemma payload_step_length (st : store) (i : nat) :
  length (buf (hidePayloadStep binaryData st i)) = length (buf st).
Proof.
  rewrite payload_step. destruct (addr i <? length (buf st)); [| reflexivity].
  apply length_assign.
Qed.

Lemma payload_step_other (st : store) (i j : nat) :
  addr i <> j -> rd (buf (hidePayloadStep binaryData st i)) j = rd (buf st) j.
Proof.
  intros H. rewrite payload_step.
  destruct (addr i <? length (buf st)); [| reflexivity].
  apply rd_assign_other. exact H.
Qed.

Lemma payload_length (n a : nat) (st : store) :
  length (buf (run a n st)) = length (buf st).
Proof.
  revert a st. induction n as [| n IH]; intros a st; [reflexivity |].
  simpl. rewrite IH. apply payload_step_length.
Qed.

Lemma payload_miss (n a : nat) (st : store) (j : nat) :
  (forall i, a <= i < a + n -> addr i <> j) ->
  rd (buf (run a n st)) j = rd (buf st) j.
Proof.
  revert a st. induction n as [| n IH]; intros a st Hj; [reflexivity |].
  simpl. rewrite IH.
  - apply payload_step_other. apply Hj. lia.
  - intros i Hi. apply Hj. lia.
Qed.

Lemma payload_hit (n a : nat) (st : store) (i : nat) :
  a <= i < a + n -> addr i < length (buf st) ->
  rd (buf (run a n st)) (addr i)
  = setLSB (rd (buf st) (addr i)) (nth i binaryData false).
Proof.
  revert a st. induction n as [| n IH]; intros a st Hi Hlen; [lia |].
  simpl.
  destruct (Nat.eq_dec i a) as [-> | Hne].
  - rewrite payload_miss.
    + rewrite payload_step. apply Nat.ltb_lt in Hlen as Hb. rewrite Hb.
      apply rd_assign_same. exact Hlen.
    + intros i Hi' E. apply addr_inj in E. lia.
  - rewrite IH.
    + rewrite payload_step_other; [reflexivity |].
      intros E. apply addr_inj in E. lia.
    + lia.
    + rewrite payload_step_length. exact Hlen.
Qed.

(** The assignments of the loop: one per payload bit whose address is
    inside the buffer, in the order of the bits. *)
Lemma payload_writes (n a : nat) (st : store) :
  writes (run a n st)
  = writes st
    ++ List.filter (fun j => j <? length (buf st)) (map addr (seq a n)).
Proof.
  revert a st. induction n as [| n IH]; intros a st.
  - simpl. symmetry. apply app_nil_r.
  - simpl. rewrite IH. rewrite payload_step_length.
    rewrite payload_step.
    destruct (addr a <? length (buf st)); simpl;
      [rewrite <- app_assoc |]; reflexivity.
Qed.
End PayloadLoop.

(** ** Numbers and their binary strings *)

Lemma maxDataSize_div (data : buffer) :
  maxDataSizeOf data = (3 * Z.of_nat (length data) / 32)%Z.
Proof.
  transitivity (Z.of_nat (length data) * 1 * 3 * 1 / 32)%Z;
    [reflexivity | f_equal; lia].
Qed.

Lemma gtQ_quarter (x n : Z) : gtQ x (inject_Z n / 4)%Q = (n <? 4 * x)%Z.
Proof.
  transitivity (negb (x * 4 <=? n * 1 * 1)%Z); [reflexivity |].
  destruct (Z.leb_spec (x * 4) (n * 1 * 1)); destruct (Z.ltb_spec n (4 * x));
    simpl; try reflexivity; lia.
Qed.

Lemma parse_leading_zeros (k : nat) (s : list bool) :
  JS.parseInt2 (replicate k false ++ s) = JS.parseInt2 s.
Proof.
  unfold JS.parseInt2. rewrite fold_left_app. f_equal.
  induction k as [| k IH]; [reflexivity | exact IH].
Qed.

Lemma parse_posDigits (p : positive) (acc : list bool) :
  JS.parseInt2 (JS.posDigits p acc)
  = fold_left (fun a b => (2 * a + digit b)%Z) acc (Zpos p).
Proof.
  unfold JS.parseInt2. revert acc.
  induction p as [q IH | q IH |]; intros acc; simpl.
  - rewrite IH. simpl. f_equal.
  - rewrite IH. simpl. f_equal.
  - reflexivity.
Qed.

Lemma parse_toString2 (n : Z) : (0 <= n)%Z -> JS.parseInt2 (JS.toString2 n) = n.
Proof.
  intros Hn. destruct n as [| p | p]; [reflexivity | | lia].
  simpl. apply parse_posDigits.
Qed.

Lemma parse_numberToBinary (n : Z) (bitLength : nat) :
  (0 <= n)%Z -> JS.parseInt2 (numberToBinary n bitLength) = n.
Proof.
  intros Hn. unfold numberToBinary, JS.padStart.
  rewrite parse_leading_zeros. apply parse_toString2. exact Hn.
Qed.

Lemma posDigits_length (p : positive) (acc : list bool) (n : nat) :
  (Zpos p < 2 ^ Z.of_nat n)%Z ->
  length (JS.posDigits p acc) <= n + length acc.
Proof.
  revert acc n.
  assert (forall q n, (2 * Zpos q < 2 ^ Z.of_nat n)%Z ->
            exists m, n = S m /\ (Zpos q < 2 ^ Z.of_nat m)%Z) as Hhalf.
  { intros q [| m] H; [simpl in H; lia |]. exists m. split; [reflexivity |].
    rewrite Nat2Z.inj_succ, Z.pow_succ_r in H by lia. lia. }
  induction p as [q IH | q IH |]; intros acc n Hn; simpl.
  - destruct (Hhalf q n) as [m [-> Hm]]; [lia |].
    specialize (IH (true :: acc) m Hm). simpl in IH. lia.
  - destruct (Hhalf q n) as [m [-> Hm]]; [lia |].
    specialize (IH (false :: acc) m Hm). simpl in IH. lia.
  - destruct n; [simpl in Hn; lia | lia].
Qed.

Lemma numberToBinary_length (n : Z) (bitLength : nat) :
  0 < bitLength -> (0 <= n < 2 ^ Z.of_nat bitLength)%Z ->
  length (numberToBinary n bitLength) = bitLength.
Proof.
  intros Hpos Hn. unfold numberToBinary, JS.padStart.
  rewrite length_app, length_replicate.
  assert (length (JS.toString2 n) <= bitLength) as Hle.
  { destruct n as [| p | p]; simpl.
    - lia.
    - pose proof (posDigits_length p [] bitLength). simpl in *. lia.
    - lia. }
  lia.
Qed.

Lemma map_nth_seq_id {A : Type} (l : list A) (d : A) :
  map (fun i => nth i l d) (seq 0 (length l)) = l.
Proof.
  apply nth_ext with (d := d) (d' := d).
  - rewrite length_map, length_seq. reflexivity.
  - intros i Hi. rewrite length_map, length_seq in Hi.
    rewrite nth_indep with (d' := nth (length l) l d)
      by (rewrite length_map, length_seq; exact Hi).
    rewrite (map_nth (fun i => nth i l d)). rewrite seq_nth by exact Hi.
    reflexivity.
Qed.

(** Char codes below 256 take exactly 8 digits each. *)
Lemma textToBinary_length (text : jsstring) :
  Forall (fun c => (0 <= c < 256)%Z) text ->
  length (textToBinary text) = 8 * length text.
Proof.
  induction 1 as [| c text Hc _ IH]; [reflexivity |].
  unfold textToBinary in *. simpl. rewrite length_app, IH.
  pose proof (numberToBinary_length c 8) as H8. unfold numberToBinary in H8.
  rewrite H8; [lia | lia |]. simpl. lia.
Qed.

Lemma digit_b2z (b : bool) : digit b = Z.b2z b.
Proof. destruct b; reflexivity. Qed.

Lemma parse_snoc (s : list bool) (b : bool) :
  JS.parseInt2 (s ++ [b]) = (2 * JS.parseInt2 s + Z.b2z b)%Z.
Proof.
  unfold JS.parseInt2. rewrite fold_left_app. simpl. rewrite digit_b2z.
  reflexivity.
Qed.

(** The digits are in big-endian order: digit [i] of an [n]-digit string
    is bit [n - 1 - i] of the number it spells. *)
Lemma parse_testbit (s : list bool) (i : nat) :
  i < length s ->
  nth i s false = Z.testbit (JS.parseInt2 s) (Z.of_nat (length s - 1 - i)).
Proof.
  revert i. induction s as [| b s IH] using rev_ind; intros i Hi;
    [simpl in Hi; lia |].
  rewrite length_app in *. cbn [length] in *. rewrite parse_snoc.
  destruct (Nat.eq_dec i (length s)) as [-> | Hne].
  - rewrite app_nth2 by lia. rewrite Nat.sub_diag. cbn [nth].
    replace (length s + 1 - 1 - length s) with 0 by lia.
    change (Z.of_nat 0) with 0%Z. rewrite Z.testbit_0_r. reflexivity.
  - rewrite app_nth1 by lia. rewrite IH by lia.
    replace (Z.of_nat (length s + 1 - 1 - i))
      with (Z.succ (Z.of_nat (length s - 1 - i))) by lia.
    rewrite Z.testbit_succ_r by lia. reflexivity.
Qed.

(** ** What a resolved hideData has done *)

Lemma Resolved_inj {A : Type} (a b : A) : Resolved a = Resolved b -> a = b.
Proof. intros H. injection H. auto. Qed.

Section Embedding.
Context {crypto : CryptoJS}.
Variables (data : list Z) (text password : list Z).

Local Abbreviation dataToHide := (dataToHideOf text password).
Local Abbreviation binaryData := (textToBinary dataToHide).
Local Abbreviation dataLengthBinary :=
  (numberToBinary (Z.of_nat (length dataToHide)) 32).
Local Abbreviation afterHeader :=
  (fold_left (hideHeaderStep dataLengthBinary) (seq 0 32)
     {| buf := data; writes := [] |}).

Lemma dataToHide_length :
  length (dataToHideOf text password)
  = 11 + length (if truthy password && (0 <? length password)
                 then AES_encrypt text password else text).
Proof.
  unfold dataToHideOf. cbv zeta. rewrite !length_app.
  destruct (truthy password); simpl; lia.
Qed.

Lemma hideData_inv (st : store) :
  hideData data text password = Resolved st ->
  (Z.of_nat (length dataToHide) <= maxDataSizeOf data)%Z
  /\ st = fold_left (hidePayloadStep binaryData)
            (seq 0 (length binaryData)) afterHeader.
Proof.
  unfold hideData. cbv zeta.
  destruct (Z.ltb_spec (maxDataSizeOf data) (Z.of_nat (length dataToHide)));
    intros E; [discriminate |].
  apply Resolved_inj in E. subst st. split; [assumption | reflexivity].
Qed.

(** The only rejection of [hideData]: the framed text is longer than the
    computed maximum, and the error carries that maximum. *)
Lemma hideData_rejected_iff (e : error) :
  hideData data text password = Rejected e
  <-> (maxDataSizeOf data < Z.of_nat (length dataToHide))%Z
      /\ e = DataTooLarge (maxDataSizeOf data).
Proof.
  unfold hideData. cbv zeta.
  destruct (Z.ltb_spec (maxDataSizeOf data) (Z.of_nat (length dataToHide)))
    as [Hlt | Hge]; split.
  - intros H. split; [exact Hlt | congruence].
  - intros [_ ->]. reflexivity.
  - intros H. discriminate H.
  - intros [Hlt _]. exfalso. apply (Z.lt_irrefl (maxDataSizeOf data)).
    eapply Z.lt_le_trans; eassumption.
Qed.

Lemma afterHeader_length : length (buf afterHeader) = length data.
Proof. rewrite header_length. reflexivity. Qed.

Lemma resolved_length (st : store) :
  hideData data text password = Resolved st -> length (buf st) = length data.
Proof.
  intros H. apply hideData_inv in H as [_ ->].
  rewrite payload_length. apply afterHeader_length.
Qed.

Lemma resolved_big_enough (st : store) :
  hideData data text password = Resolved st -> 118 <= length data.
Proof.
  intros H. apply hideData_inv in H as [Hcap _].
  rewrite maxDataSize_div in Hcap.
  rewrite dataToHide_length in Hcap.
  revert Hcap. generalize (length (if truthy password && (0 <? length password)
                 then AES_encrypt text password else text)).
  generalize (length data). clear. intros n m Hcap.
  Z.div_mod_to_equations. lia.
Qed.

Lemma resolved_writes (st : store) :
  hideData data text password = Resolved st ->
  writes st
  = seq 0 32
    ++ List.filter (fun j => j <? length data)
         (map addr (seq 0 (length binaryData))).
Proof.
  intros H. apply hideData_inv in H as [_ ->].
  rewrite payload_writes, afterHeader_length.
  rewrite header_writes. reflexivity.
Qed.

(** A byte of the result: header bytes carry a header digit, payload
    addresses carry a payload digit, every other byte is as before. *)
Lemma resolved_header_byte (st : store) (i : nat) :
  hideData data text password = Resolved st -> i < 32 ->
  rd (buf st) i = setLSB (rd data i) (nth i dataLengthBinary false).
Proof.
  intros H Hi. pose proof (resolved_big_enough st H) as Hbig.
  apply hideData_inv in H as [_ ->].
  rewrite payload_miss.
  - rewrite header_inside; simpl; [reflexivity | lia | lia].
  - intros k _. pose proof (addr_lower k). lia.
Qed.

Lemma resolved_payload_byte (st : store) (i : nat) :
  hideData data text password = Resolved st ->
  i < length binaryData -> addr i < length data ->
  rd (buf st) (addr i) = setLSB (rd data (addr i)) (nth i binaryData false).
Proof.
  intros H Hi Hlen. apply hideData_inv in H as [_ ->].
  rewrite payload_hit; [| lia | rewrite afterHeader_length; exact Hlen].
  f_equal. apply header_outside.
  pose proof (addr_lower i). lia.
Qed.

Lemma resolved_other_byte (st : store) (j : nat) :
  hideData data text password = Resolved st ->
  32 <= j -> (forall i, i < length binaryData -> addr i <> j) ->
  rd (buf st) j = rd data j.
Proof.
  intros H Hj Hmiss. apply hideData_inv in H as [_ ->].
  rewrite payload_miss by (intros i Hi; apply Hmiss; lia).
  apply header_outside. lia.
Qed.
End Embedding.

Lemma lookup_of_rd (a b : list Z) (j : nat) :
  length a = length b -> rd a j = rd b j -> a !! j = b !! j.
Proof.
  intros Hlen Hrd. unfold rd in Hrd.
  destruct (a !! j) as [x |] eqn:Ea; destruct (b !! j) as [y |] eqn:Eb;
    simpl in Hrd; try congruence.
  - apply lookup_lt_Some in Ea. apply lookup_ge_None in Eb. lia.
  - apply lookup_ge_None in Ea. apply lookup_lt_Some in Eb. lia.
Qed.

Lemma rd_take (n : nat) (a : list Z) (i : nat) :
  i < n -> rd (take n a) i = rd a i.
Proof. intros H. unfold rd. rewrite lookup_take_lt by exact H. reflexivity. Qed.

Lemma addr_hit_dec (n j : nat) :
  {i | i < n /\ addr i = j} + {forall i, i < n -> addr i <> j}.
Proof.
  induction n as [| n [[i [Hi E]] | Hno]].
  - right. intros i Hi. lia.
  - left. exists i. split; [lia | exact E].
  - destruct (Nat.eq_dec (addr n) j) as [E | Hne].
    + left. exists n. split; [lia | exact E].
    + right. intros i Hi. destruct (Nat.eq_dec i n) as [-> | Hin]; [exact Hne |].
      apply Hno. lia.
Qed.

(** The header a buffer carries depends on its first 32 bytes only. *)
Lemma readHeader_take (a b : list Z) :
  take 32 a = take 32 b -> readHeader a = readHeader b.
Proof.
  intros E. unfold readHeader. f_equal. apply map_ext_in.
  intros i Hi. apply in_seq in Hi.
  rewrite <- (rd_take 32 a), <- (rd_take 32 b), E by lia. reflexivity.
Qed.

Lemma readHeader_digits (a : list Z) (digits : list bool) :
  length digits = 32 ->
  (forall i, i < 32 -> Z.testbit (rd a i) 0 = nth i digits false) ->
  readHeader a = JS.parseInt2 digits.
Proof.
  intros Hlen Hbits. unfold readHeader. f_equal.
  rewrite <- (map_nth_seq_id digits false). rewrite Hlen.
  apply map_ext_in. intros i Hi. apply in_seq in Hi. apply Hbits. lia.
Qed.

Lemma helloStore_resolved :
  hideData (crypto := plainCrypto) (blank 100) (lit "hello") []
  = Resolved helloStore.
Proof. vm_compute. reflexivity. Qed.

(** ** The embedding claims *)

Section EmbeddingClaims.
Context {crypto : CryptoJS}.

(** C10. Every assignment [hideData] makes is inside the buffer.  The
    framed text has at least 11 chars, so a passed capacity check means
    [Math.floor((data.length / 4) * 3 / 8) >= 11]; for the buffer of an
    image (a multiple of 4 bytes) that forces [data.length >= 120], and
    in any case more than 32, so the 32 unguarded header assignments at
    0..31 are in range; the payload loop assigns only under its guard
    [dataIndex < data.length]. *)
Theorem hideData_writes_in_bounds (data text password : list Z) (st : store) :
  hideData data text password = Resolved st ->
  11 <= length (dataToHideOf text password)
  /\ (11 <= maxDataSizeOf data)%Z
  /\ (length data mod 4 = 0 -> 120 <= length data)
  /\ 32 < length data
  /\ length (buf st) = length data
  /\ take 32 (writes st) = seq 0 32
  /\ Forall (fun j => j < length data) (writes st).
Proof.
  intros H.
  pose proof (resolved_big_enough _ _ _ _ H) as Hbig.
  pose proof (resolved_writes _ _ _ _ H) as Hw.
  pose proof (resolved_length _ _ _ _ H) as Hlen.
  pose proof (dataToHide_length text password) as Hl.
  apply hideData_inv in H as [Hcap _].
  split; [lia |]. split; [lia |]. split.
  { intros Hpix. apply Nat.Div0.mod_divides in Hpix as [c Hc]. lia. }
  split; [lia |]. split; [exact Hlen |]. split.
  - rewrite Hw. rewrite take_app_length'; [reflexivity |].
    symmetry. apply length_seq.
  - rewrite Hw. apply Forall_app. split.
    + apply Forall_forall. intros j Hj. apply list_elem_of_In, in_seq in Hj. lia.
    + apply Forall_forall. intros j Hj.
      apply list_elem_of_In, filter_In in Hj as [_ Hj].
      apply Nat.ltb_lt in Hj. exact Hj.
Qed.

(** C9. Embedding never touches a byte that the extraction loop skips
    as alpha: a byte at index [j >= 32] with [(j + 1) mod 4 = 0] is the
    same after [hideData], and every payload assignment (the
    assignments after the 32 header ones) lands on a colour byte. *)
Theorem hideData_preserves_alpha (data text password : list Z) (st : store) :
  hideData data text password = Resolved st ->
  (forall j, 32 <= j -> (j + 1) mod 4 = 0 -> buf st !! j = data !! j)
  /\ Forall (fun j => (j + 1) mod 4 <> 0) (drop 32 (writes st)).
Proof.
  intros H. split.
  - intros j Hj Halpha. apply lookup_of_rd.
    + eapply resolved_length. exact H.
    + eapply resolved_other_byte; [exact H | exact Hj |].
      intros i _ E. subst j. exact (addr_colour i Halpha).
  - rewrite (resolved_writes _ _ _ _ H).
    rewrite drop_app_length'; [| symmetry; apply length_seq].
    apply Forall_forall. intros j Hj.
    apply list_elem_of_In, filter_In in Hj as [Hj _].
    apply in_map_iff in Hj as [i [<- _]]. apply addr_colour.
Qed.

(** C4. Payload bit [i] goes to byte [addr i = 32 + i + (32 + i) / 3]
    when [(addr i + 1) mod 4 <> 0] and [addr i] is inside the buffer;
    on an index with [(dataIndex + 1) mod 4 = 0] the loop body leaves
    the store as it is (the bit is written nowhere); the payload
    assignments are exactly the in-range addresses, in order; and in
    the result every byte has its bits 1 to 7 as before. *)
Theorem payload_bit_addressing (data text password : list Z) (st : store) :
  hideData data text password = Resolved st ->
  let binaryData := textToBinary (dataToHideOf text password) in
  (forall i, i < length binaryData ->
     (addr i + 1) mod 4 <> 0 -> addr i < length data ->
     Z.testbit (rd (buf st) (addr i)) 0 = nth i binaryData false)
  /\ (forall dataIndex bit st0, (dataIndex + 1) mod 4 = 0 ->
        hideBitAt dataIndex bit st0 = st0)
  /\ drop 32 (writes st)
     = List.filter (fun j => j <? length data)
         (map addr (seq 0 (length binaryData)))
  /\ (forall j k, (1 <= k <= 7)%Z ->
        Z.testbit (rd (buf st) j) k = Z.testbit (rd data j) k).
Proof.
  intros H binaryData. repeat split.
  - intros i Hi _ Hlen.
    rewrite (resolved_payload_byte _ _ _ _ _ H Hi Hlen). apply setLSB_bit0.
  - intros dataIndex bit st0 Hskip. unfold hideBitAt.
    apply Nat.eqb_eq in Hskip. rewrite Hskip. reflexivity.
  - rewrite (resolved_writes _ _ _ _ H).
    rewrite drop_app_length'; [reflexivity | symmetry; apply length_seq].
  - intros j k Hk.
    destruct (Nat.lt_ge_cases j 32) as [Hj | Hj].
    + rewrite (resolved_header_byte _ _ _ _ _ H Hj). apply setLSB_high, Hk.
    + destruct (Nat.lt_ge_cases j (length data)) as [Hin | Hout].
      * destruct (addr_hit_dec (length binaryData) j) as [[i [Hi E]] | Hno].
        -- subst j. rewrite (resolved_payload_byte _ _ _ _ _ H Hi Hin).
           apply setLSB_high, Hk.
        -- rewrite (resolved_other_byte _ _ _ _ _ H Hj Hno). reflexivity.
      * rewrite !rd_past_end; [reflexivity | exact Hout |].
        rewrite (resolved_length _ _ _ _ H). exact Hout.
Qed.

(** C5. The length of the framed text is written as a 32-digit
    big-endian number into bit 0 of bytes 0..31, one after the other
    with no byte skipped, and bits 1 to 7 of those bytes stay; any
    buffer with the same first 32 bytes as the result gives that length
    back as its header. *)
Theorem header_fidelity (data text password : list Z) (st : store) :
  hideData data text password = Resolved st ->
  let dataLength := Z.of_nat (length (dataToHideOf text password)) in
  (dataLength < 2 ^ 32)%Z ->
  (forall i, i < 32 ->
     Z.testbit (rd (buf st) i) 0 = Z.testbit dataLength (Z.of_nat (31 - i)))
  /\ take 32 (writes st) = seq 0 32
  /\ (forall i k, i < 32 -> (1 <= k <= 7)%Z ->
        Z.testbit (rd (buf st) i) k = Z.testbit (rd data i) k)
  /\ (forall data', take 32 data' = take 32 (buf st) ->
        readHeader data' = dataLength).
Proof.
  intros H dataLength Hfit.
  set (digits := numberToBinary dataLength 32).
  assert (length digits = 32) as Hlen
    by (apply numberToBinary_length; [lia | unfold dataLength; simpl; lia]).
  assert (JS.parseInt2 digits = dataLength) as Hval
    by (apply parse_numberToBinary; unfold dataLength; lia).
  assert (forall i, i < 32 ->
            Z.testbit (rd (buf st) i) 0 = nth i digits false) as Hbit.
  { intros i Hi. rewrite (resolved_header_byte _ _ _ _ _ H Hi).
    apply setLSB_bit0. }
  repeat split.
  - intros i Hi. rewrite (Hbit i Hi), parse_testbit by lia.
    rewrite Hval, Hlen. f_equal.
  - rewrite (resolved_writes _ _ _ _ H).
    rewrite take_app_length'; [reflexivity | symmetry; apply length_seq].
  - intros i k Hi Hk. rewrite (resolved_header_byte _ _ _ _ _ H Hi).
    apply setLSB_high, Hk.
  - intros data' E. rewrite (readHeader_take _ _ E).
    rewrite (readHeader_digits _ digits Hlen Hbit). exact Hval.
Qed.
End EmbeddingClaims.

(** ** The collection loop *)

(** More fuel does not change a finished run. *)
Lemma collectBits_more_fuel (fuel fuel' : nat) (data : list Z) (bitsToExtract : Z)
    (i : nat) (bitCount : Z) (acc r : list bool) :
  collectBits fuel data bitsToExtract i bitCount acc = Some r ->
  fuel <= fuel' ->
  collectBits fuel' data bitsToExtract i bitCount acc = Some r.
Proof.
  revert fuel' i bitCount acc.
  induction fuel as [| fuel IH]; intros fuel' i bitCount acc H Hle;
    [discriminate |].
  destruct fuel' as [| fuel']; [lia |].
  cbn [collectBits] in *.
  destruct (bitCount <? bitsToExtract)%Z; [| exact H].
  destruct ((i + 1) mod 4 =? 0); [apply IH; [exact H | lia] |].
  destruct (i <? length data); apply IH; try exact H; lia.
Qed.

(** Once fewer bytes are left than bits are still wanted, the loop
    condition stays true for ever: no amount of fuel finishes the run. *)
Lemma collectBits_starved (fuel : nat) (data : list Z) (bitsToExtract : Z)
    (i : nat) (bitCount : Z) (acc : list bool) :
  (bitCount + Z.of_nat (length data - i) < bitsToExtract)%Z ->
  collectBits fuel data bitsToExtract i bitCount acc = None.
Proof.
  revert i bitCount acc.
  induction fuel as [| fuel IH]; intros i bitCount acc H; [reflexivity |].
  cbn [collectBits].
  destruct (Z.ltb_spec bitCount bitsToExtract); [| lia].
  destruct ((i + 1) mod 4 =? 0); [apply IH; lia |].
  destruct (Nat.ltb_spec i (length data)); apply IH; lia.
Qed.

(** ** The extraction claims *)

Section ExtractionClaims.
Context {crypto : CryptoJS}.

Lemma processExtracted_not_NoHiddenData (extractedText password : list Z) :
  processExtracted extractedText password <> Rejected NoHiddenData.
Proof.
  unfold processExtracted, decryptText. repeat case_match; discriminate.
Qed.

Lemma gtQ_spec (x : Z) (q : Q) : gtQ x q = true <-> (q < inject_Z x)%Q.
Proof.
  unfold gtQ. rewrite negb_true_iff, <- not_true_iff_false, Qle_bool_iff.
  split; [apply Qnot_le_lt | apply Qlt_not_le].
Qed.

(** Past the length check [extractData] is the collection loop followed
    by the text handling. *)
Lemma extractData_valid (fuel : nat) (data password : list Z) :
  ~ ((readHeader data <= 0)%Z
     \/ (inject_Z (Z.of_nat (length data)) / 4 < inject_Z (readHeader data))%Q) ->
  extractData fuel data password
  = match collectBits fuel data (readHeader data * 8) 32 0%Z [] with
    | None => None
    | Some extractedBinary =>
        Some (processExtracted (binaryToText extractedBinary) password)
    end.
Proof.
  intros Hvalid. unfold extractData. cbv zeta.
  destruct (Z.leb_spec (readHeader data) 0) as [Hle | Hpos];
    [exfalso; apply Hvalid; left; exact Hle |].
  destruct (gtQ (readHeader data) (inject_Z (Z.of_nat (length data)) / 4)%Q)
    eqn:Eg; [| reflexivity].
  exfalso. apply Hvalid. right. apply gtQ_spec. exact Eg.
Qed.

(** C6. [extractData] is rejected with 'No hidden data found or invalid
    data' exactly when the header value [L] has [L <= 0] or
    [L > data.length / 4]; otherwise it goes on to the collection loop
    and hands the collected bits to the text handling. *)
Theorem length_validation (fuel : nat) (data password : list Z) :
  let L := readHeader data in
  (extractData fuel data password = Some (Rejected NoHiddenData)
   <-> (L <= 0)%Z \/ (inject_Z (Z.of_nat (length data)) / 4 < inject_Z L)%Q)
  /\ (~ ((L <= 0)%Z \/ (inject_Z (Z.of_nat (length data)) / 4 < inject_Z L)%Q) ->
      extractData fuel data password
      = match collectBits fuel data (L * 8) 32 0%Z [] with
        | None => None
        | Some extractedBinary =>
            Some (processExtracted (binaryToText extractedBinary) password)
        end)
  /\ message NoHiddenData = "No hidden data found or invalid data"%string.
Proof.
  intros L. split; [| split; [apply extractData_valid | reflexivity]].
  split.
  - intros H.
    destruct (Z.le_gt_cases L 0) as [Hle | Hpos]; [left; exact Hle |].
    destruct (Qlt_le_dec (inject_Z (Z.of_nat (length data)) / 4) (inject_Z L))
      as [Hq | Hq]; [right; exact Hq |].
    exfalso. rewrite extractData_valid in H.
    + destruct (collectBits fuel data (readHeader data * 8) 32 0%Z []);
        [| discriminate H].
      apply (processExtracted_not_NoHiddenData (binaryToText l) password).
      congruence.
    + intros [Hx | Hx]; [unfold L in Hpos; lia |].
      apply (Qlt_not_le _ _ Hx). exact Hq.
  - intros Hbad. unfold extractData. cbv zeta. fold L.
    destruct Hbad as [Hle | Hq].
    + apply Z.leb_le in Hle. rewrite Hle. reflexivity.
    + apply gtQ_spec in Hq. rewrite Hq, orb_true_r. reflexivity.
Qed.

(** C3. On a 3x3 image whose header spells the length 1 the length
    check passes (0 < 1 <= 36 / 4), 8 bits are wanted and only the three
    colour bytes 32, 33, 34 lie past offset 32: the collection loop
    never finishes, [extractData] settles for no amount of fuel. *)
Theorem collection_never_ends_on_tinyImage (fuel : nat) (password : list Z) :
  length tinyImage = 36
  /\ readHeader tinyImage = 1%Z
  /\ collectBits fuel tinyImage (readHeader tinyImage * 8) 32 0%Z [] = None
  /\ extractData fuel tinyImage password = None.
Proof.
  assert (collectBits fuel tinyImage (readHeader tinyImage * 8) 32 0%Z [] = None)
    as Hloop by (apply collectBits_starved; vm_compute; reflexivity).
  repeat split; try reflexivity; try exact Hloop.
  unfold extractData. cbv zeta. rewrite Hloop. reflexivity.
Qed.
End ExtractionClaims.

(** ** Searching a string *)

Lemma startsWith_app (p s : list Z) :
  JS.startsWith p s = true <-> exists rest, s = p ++ rest.
Proof.
  revert s. induction p as [| a p IH]; intros s; simpl.
  - split; [intros _; exists s; reflexivity | reflexivity].
  - destruct s as [| b s].
    + split; [discriminate | intros [rest E]; discriminate].
    + rewrite andb_true_iff, Z.eqb_eq, IH. split.
      * intros [-> [rest ->]]. exists rest. reflexivity.
      * intros [rest E]. injection E as -> ->. split; [reflexivity | eauto].
Qed.

Lemma startsWith_length (p s : list Z) :
  JS.startsWith p s = true -> length p <= length s.
Proof.
  intros H. apply startsWith_app in H as [rest ->]. rewrite length_app. lia.
Qed.

Lemma startsWith_take (p s : list Z) (n : nat) :
  JS.startsWith p (take n s) = true ->
  JS.startsWith p s = true.
Proof.
  intros H. apply startsWith_app in H as [rest E]. apply startsWith_app.
  exists (rest ++ drop n s). rewrite app_assoc, <- E. symmetry. apply take_drop.
Qed.

Lemma startsWith_take_fits (p s : list Z) (n : nat) :
  JS.startsWith p s = true -> length p <= n ->
  JS.startsWith p (take n s) = true.
Proof.
  intros H Hn. apply startsWith_app in H as [rest ->]. apply startsWith_app.
  exists (take (n - length p) rest). rewrite take_app. 
  rewrite take_ge by exact Hn. reflexivity.
Qed.

Lemma search_length (p s : list Z) (i k : nat) :
  JS.search p s i = Some k -> length p <= length s.
Proof.
  revert i. induction s as [| c s IH]; intros i; simpl.
  - destruct (JS.startsWith p []) eqn:E; [| discriminate].
    intros _. apply startsWith_length in E. exact E.
  - destruct (JS.startsWith p (c :: s)) eqn:E.
    + intros _. apply startsWith_length in E. exact E.
    + intros H. apply IH in H. simpl. lia.
Qed.

(** What [search] finds: the first position where [p] occurs. *)
Lemma search_found (p s : list Z) (i k : nat) :
  JS.search p s i = Some k ->
  i <= k
  /\ k - i + length p <= length s
  /\ s = take (k - i) s ++ p ++ drop (k - i + length p) s
  /\ (forall j, j < k - i -> JS.startsWith p (drop j s) = false).
Proof.
  revert i. induction s as [| c s IH]; intros i; simpl.
  - destruct (JS.startsWith p []) eqn:E; [| discriminate].
    intros [= <-]. rewrite Nat.sub_diag.
    apply startsWith_app in E as [rest E].
    destruct p; [| discriminate].
    repeat split; [lia | simpl; lia | intros j Hj; lia].
  - destruct (JS.startsWith p (c :: s)) eqn:E.
    + intros [= <-]. rewrite Nat.sub_diag. split; [lia |]. split; [| split].
      * apply startsWith_length in E. simpl in *. lia.
      * apply startsWith_app in E as [rest E]. rewrite E at 1.
        simpl. f_equal. rewrite E. rewrite drop_app_length. reflexivity.
      * intros j Hj. lia.
    + intros H. apply IH in H as [Hle [Hfit [Heq Hfirst]]].
      replace (k - i) with (S (k - S i)) by lia. split; [lia |].
      split; [| split].
      * simpl. lia.
      * simpl. f_equal. exact Heq.
      * intros [| j] Hj; [exact E |]. simpl. apply Hfirst. lia.
Qed.

Lemma search_take (p s : list Z) (n i k : nat) :
  JS.search p (take n s) i = Some k -> JS.search p s i = Some k.
Proof.
  revert n i. induction s as [| c s IH]; intros n i.
  - rewrite take_nil. auto.
  - destruct n as [| n].
    + simpl. destruct (JS.startsWith p []) eqn:E; [| discriminate].
      intros [= <-]. apply startsWith_app in E as [rest E].
      destruct p; [| discriminate]. reflexivity.
    + change (take (S n) (c :: s)) with (c :: take n s).
      cbn [JS.search].
      destruct (JS.startsWith p (c :: take n s)) eqn:E.
      * intros [= <-].
        change (c :: take n s) with (take (S n) (c :: s)) in E.
        apply startsWith_take in E. rewrite E. reflexivity.
      * intros H. destruct (JS.startsWith p (c :: s)) eqn:E'.
        -- exfalso. apply search_length in H.
           change (c :: take n s) with (take (S n) (c :: s)) in E.
           rewrite startsWith_take_fits in E; [discriminate | exact E' |].
           rewrite length_take in H. lia.
        -- apply IH in H. exact H.
Qed.

Lemma includes_take (p s : list Z) (n : nat) :
  JS.includes p (take n s) = true -> JS.includes p s = true.
Proof.
  unfold JS.includes. destruct (JS.search p (take n s) 0) as [k |] eqn:E;
    [| discriminate].
  apply search_take in E. rewrite E. reflexivity.
Qed.

(** A marker inside the first [n] chars: [indexOf] on the whole text
    finds it there, and the text splits around it. *)
Lemma includes_prefix_split (p s : list Z) (n : nat) :
  JS.includes p (JS.substringTo n s) = true ->
  exists junk content,
    s = junk ++ p ++ content
    /\ length junk + length p <= n
    /\ JS.search p s 0 = Some (length junk)
    /\ JS.substringFrom (JS.indexOf p s + Z.of_nat (length p)) s = content.
Proof.
  unfold JS.includes, JS.substringTo, JS.substringFrom, JS.indexOf.
  destruct (JS.search p (take n s) 0) as [k |] eqn:E; [| discriminate].
  intros _. pose proof (search_found _ _ _ _ E) as [_ [Hfit _]].
  apply search_take in E. rewrite E.
  pose proof (search_found _ _ _ _ E) as [_ [Hfit' [Heq _]]].
  rewrite Nat.sub_0_r in *. rewrite length_take in Hfit.
  exists (take k s), (drop (k + length p) s).
  rewrite length_take.
  replace (k `min` length s) with k by lia.
  repeat split; try assumption; try lia.
  f_equal. lia.
Qed.

(** ** The text handling of extractData *)

Lemma includes_cleanText (p extractedText : list Z) :
  JS.includes p (cleanTextOf extractedText) = true ->
  JS.includes p extractedText = true.
Proof.
  unfold cleanTextOf, JS.splitHead.
  destruct (JS.includes (lit "<<EOF>>") extractedText); [| auto].
  destruct (JS.search (lit "<<EOF>>") extractedText 0); [| auto].
  apply includes_take.
Qed.

Section TextHandling.
Context {crypto : CryptoJS}.
Variables (extractedText password : list Z).

Local Abbreviation cleanText := (cleanTextOf extractedText).

(** The first test of the text handling passes as soon as the end
    marker or a tag occurs somewhere in the extracted text. *)
Lemma processExtracted_marked :
  JS.includes (lit "<<EOF>>") extractedText = true
  \/ JS.includes (lit "TXT:") extractedText = true
  \/ JS.includes (lit "ENC:") extractedText = true ->
  processExtracted extractedText password
  = match inferFormat cleanText with
    | (encrypted, processedText) => decryptText processedText password
    | (plaintext, processedText) => Resolved processedText
    | (unknown, _) =>
        if 10 <? length (JS.keepPrintable cleanText)
        then Resolved (lit "Partial recovery: " ++ JS.keepPrintable cleanText)
        else Rejected UnknownFormat
    end.
Proof.
  intros H. unfold processExtracted. cbv zeta.
  destruct H as [-> | [-> | ->]]; try reflexivity.
  - rewrite andb_false_r. reflexivity.
  - rewrite orb_true_r, andb_false_r. reflexivity.
Qed.

Lemma processExtracted_unmarked :
  JS.includes (lit "<<EOF>>") extractedText = false ->
  JS.includes (lit "TXT:") extractedText = false ->
  JS.includes (lit "ENC:") extractedText = false ->
  processExtracted extractedText password = Rejected NoFormatOrEndMarker.
Proof.
  intros H1 H2 H3. unfold processExtracted. rewrite H1, H2, H3. reflexivity.
Qed.

Lemma recover_ENC :
  JS.startsWith (lit "ENC:") cleanText = false ->
  JS.startsWith (lit "TXT:") cleanText = false ->
  JS.includes (lit "ENC:") (JS.substringTo 20 cleanText) = true ->
  exists junk content,
    cleanText = junk ++ lit "ENC:" ++ content
    /\ length junk + 4 <= 20
    /\ JS.search (lit "ENC:") cleanText 0 = Some (length junk)
    /\ inferFormat cleanText = (encrypted, content)
    /\ processExtracted extractedText password = decryptText content password.
Proof.
  intros HE HT Hin.
  destruct (includes_prefix_split _ _ _ Hin) as (junk & content & Hs & Hl & Hf & Hc).
  exists junk, content.
  assert (inferFormat cleanText = (encrypted, content)) as Hfmt.
  { unfold inferFormat. rewrite HE, HT, Hin. f_equal. exact Hc. }
  repeat split; try assumption.
  rewrite processExtracted_marked.
  - rewrite Hfmt. reflexivity.
  - right. right. apply includes_cleanText. eapply includes_take. exact Hin.
Qed.

Lemma recover_TXT :
  JS.startsWith (lit "ENC:") cleanText = false ->
  JS.startsWith (lit "TXT:") cleanText = false ->
  JS.includes (lit "ENC:") (JS.substringTo 20 cleanText) = false ->
  JS.includes (lit "TXT:") (JS.substringTo 20 cleanText) = true ->
  exists junk content,
    cleanText = junk ++ lit "TXT:" ++ content
    /\ length junk + 4 <= 20
    /\ JS.search (lit "TXT:") cleanText 0 = Some (length junk)
    /\ inferFormat cleanText = (plaintext, content)
    /\ processExtracted extractedText password = Resolved content.
Proof.
  intros HE HT Hno Hin.
  destruct (includes_prefix_split _ _ _ Hin) as (junk & content & Hs & Hl & Hf & Hc).
  exists junk, content.
  assert (inferFormat cleanText = (plaintext, content)) as Hfmt.
  { unfold inferFormat. rewrite HE, HT, Hno, Hin. f_equal. exact Hc. }
  repeat split; try assumption.
  rewrite processExtracted_marked.
  - rewrite Hfmt. reflexivity.
  - right. left. apply includes_cleanText. eapply includes_take. exact Hin.
Qed.
End TextHandling.

(** ** Colour bytes left for the collection loop *)

Lemma colourIndices_step (data : list Z) (i : nat) :
  i < length data ->
  colourIndices data i
  = if (i + 1) mod 4 =? 0 then colourIndices data (S i)
    else i :: colourIndices data (S i).
Proof.
  intros Hi. unfold colourIndices.
  replace (length data - i) with (S (length data - S i)) by lia.
  cbn [seq List.filter]. destruct ((i + 1) mod 4 =? 0); reflexivity.
Qed.

Lemma colourIndices_end (data : list Z) (i : nat) :
  length data <= i -> colourIndices data i = [].
Proof.
  intros Hi. unfold colourIndices.
  replace (length data - i) with 0 by lia. reflexivity.
Qed.

(** The loop cannot finish when fewer colour bytes are left than bits
    are still wanted. *)
Lemma collectBits_too_few (fuel : nat) (data : list Z) (bitsToExtract : Z)
    (i : nat) (bitCount : Z) (acc : list bool) :
  (bitCount + Z.of_nat (length (colourIndices data i)) < bitsToExtract)%Z ->
  collectBits fuel data bitsToExtract i bitCount acc = None.
Proof.
  revert i bitCount acc.
  induction fuel as [| fuel IH]; intros i bitCount acc H; [reflexivity |].
  cbn [collectBits].
  destruct (Z.ltb_spec bitCount bitsToExtract); [| lia].
  destruct (Nat.ltb_spec i (length data)) as [Hin | Hout].
  - rewrite colourIndices_step in H by exact Hin.
    destruct ((i + 1) mod 4 =? 0); apply IH; [exact H |].
    cbn [length] in H. lia.
  - assert (colourIndices data (S i) = []) as E
      by (apply colourIndices_end; lia).
    destruct ((i + 1) mod 4 =? 0); apply IH; rewrite E; simpl;
      rewrite colourIndices_end in H by exact Hout; simpl in H; lia.
Qed.

Lemma collectBits_S (fuel : nat) (data : list Z) (bitsToExtract : Z)
    (i : nat) (bitCount : Z) (acc : list bool) :
  collectBits (S fuel) data bitsToExtract i bitCount acc
  = if (bitCount <? bitsToExtract)%Z then
      if (i + 1) mod 4 =? 0
      then collectBits fuel data bitsToExtract (S i) bitCount acc
      else if i <? length data
           then collectBits fuel data bitsToExtract (S i) (bitCount + 1)%Z
                  (acc ++ [Z.testbit (rd data i) 0])
           else collectBits fuel data bitsToExtract (S i) bitCount acc
    else Some acc.
Proof. reflexivity. Qed.

(** With enough colour bytes left the loop finishes by the end of the
    buffer, having appended bit 0 of the next colour bytes. *)
Lemma collectBits_enough (data : list Z) (bitsToExtract : Z)
    (n i : nat) (bitCount : Z) (acc : list bool) :
  n = length data - i ->
  (bitsToExtract - bitCount <= Z.of_nat (length (colourIndices data i)))%Z ->
  collectBits (S n) data bitsToExtract i bitCount acc
  = Some (acc ++ map (fun j => Z.testbit (rd data j) 0)
                   (take (Z.to_nat (bitsToExtract - bitCount))
                         (colourIndices data i))).
Proof.
  revert i bitCount acc.
  induction n as [| n IH]; intros i bitCount acc Hn Hc.
  - rewrite colourIndices_end in * by lia. simpl in Hc.
    rewrite collectBits_S. destruct (Z.ltb_spec bitCount bitsToExtract); [lia |].
    rewrite take_nil. simpl. rewrite app_nil_r. reflexivity.
  - rewrite collectBits_S. destruct (Z.ltb_spec bitCount bitsToExtract) as [Hlt | Hge].
    + rewrite colourIndices_step in * by lia.
      destruct ((i + 1) mod 4 =? 0).
      * apply IH; [lia | exact Hc].
      * assert ((i <? length data) = true) as -> by (apply Nat.ltb_lt; lia).
        cbn [length] in Hc. rewrite IH by lia.
        replace (Z.to_nat (bitsToExtract - bitCount))
          with (S (Z.to_nat (bitsToExtract - (bitCount + 1)))) by lia.
        cbn [take map]. rewrite <- app_assoc. reflexivity.
    + replace (Z.to_nat (bitsToExtract - bitCount)) with 0 by lia.
      rewrite take_0. simpl. rewrite app_nil_r. reflexivity.
Qed.

(** The loop finishes for some amount of fuel exactly when the buffer
    holds at least [bitsToExtract] colour bytes from offset 32 on. *)
Lemma collectBits_finishes_iff (data : list Z) (bitsToExtract : Z) :
  (exists fuel r, collectBits fuel data bitsToExtract 32 0%Z [] = Some r)
  <-> (bitsToExtract <= Z.of_nat (length (colourIndices data 32)))%Z.
Proof.
  split.
  - intros [fuel [r H]].
    destruct (Z.le_gt_cases bitsToExtract
                (Z.of_nat (length (colourIndices data 32)))) as [Hle | Hgt];
      [exact Hle |].
    rewrite collectBits_too_few in H by lia. discriminate.
  - intros Hle. eexists. eexists.
    apply collectBits_enough; [reflexivity | lia].
Qed.

Lemma extractData_more_fuel {crypto : CryptoJS} (fuel fuel' : nat)
    (data password : list Z) (r : outcome (list Z)) :
  extractData fuel data password = Some r -> fuel <= fuel' ->
  extractData fuel' data password = Some r.
Proof.
  unfold extractData. cbv zeta.
  destruct ((readHeader data <=? 0)%Z
            || gtQ (readHeader data) (inject_Z (Z.of_nat (length data)) / 4)%Q);
    [auto |].
  destruct (collectBits fuel data (readHeader data * 8) 32 0%Z [])
    as [bits |] eqn:E; [| discriminate].
  intros H Hle. rewrite (collectBits_more_fuel _ _ _ _ _ _ _ _ E Hle). exact H.
Qed.

(** ** Which framed texts fit *)

Lemma addr_in_range (pixels i : nat) :
  addr i < 4 * pixels <-> 32 + i < 3 * pixels.
Proof.
  rewrite addr_split.
  pose proof (Nat.div_mod_eq (32 + i) 3) as E.
  pose proof (Nat.mod_upper_bound (32 + i) 3). lia.
Qed.

(** In an image of [pixels] pixels every payload bit of a framed text of
    [L] 8-bit chars has a byte exactly when [L] is at most the computed
    maximum minus the 4 bytes the header takes. *)
Lemma payload_fits_iff (pixels L : nat) :
  0 < L ->
  (forall i, i < 8 * L -> addr i < 4 * pixels)
  <-> (Z.of_nat L <= 3 * Z.of_nat (4 * pixels) / 32 - 4)%Z.
Proof.
  intros HL. split.
  - intros H. specialize (H (8 * L - 1)). rewrite addr_in_range in H.
    Z.div_mod_to_equations. lia.
  - intros H i Hi. apply addr_in_range. Z.div_mod_to_equations. lia.
Qed.

(** ** What the collection loop reads from an embedded image *)

Lemma colourIndices_length_only (a b : list Z) (i : nat) :
  length a = length b -> colourIndices a i = colourIndices b i.
Proof. intros E. unfold colourIndices. rewrite E. reflexivity. Qed.

(** From a payload address the next colour index is the next payload
    address. *)
Lemma colourIndices_addr (data : list Z) (k : nat) :
  addr k < length data ->
  colourIndices data (addr k) = addr k :: colourIndices data (addr (S k)).
Proof.
  intros Hk. rewrite colourIndices_step by exact Hk.
  pose proof (addr_colour k) as Hc. apply Nat.eqb_neq in Hc. rewrite Hc.
  f_equal.
  pose proof (addr_split k) as E1. pose proof (addr_split (S k)) as E2.
  pose proof (Nat.div_mod_eq (32 + k) 3) as D1.
  pose proof (Nat.div_mod_eq (32 + S k) 3) as D2.
  pose proof (Nat.mod_upper_bound (32 + k) 3) as B1.
  pose proof (Nat.mod_upper_bound (32 + S k) 3) as B2.
  destruct (Nat.eq_dec (addr (S k)) (S (addr k))) as [-> | Hne];
    [reflexivity |].
  assert (addr (S k) = S (S (addr k)) /\ (S (addr k) + 1) mod 4 = 0)
    as [-> Halpha].
  { assert ((32 + k) mod 3 = 2 /\ (32 + S k) mod 3 = 0
            /\ (32 + S k) / 3 = S ((32 + k) / 3)) as (M1 & M2 & M3) by lia.
    split; [lia |].
    replace (S (addr k) + 1) with (((32 + k) / 3 + 1) * 4) by lia.
    apply Nat.Div0.mod_mul. }
  destruct (Nat.lt_ge_cases (S (addr k)) (length data)) as [Hin | Hout].
  - rewrite (colourIndices_step data (S (addr k))) by exact Hin.
    apply Nat.eqb_eq in Halpha. rewrite Halpha. reflexivity.
  - rewrite !colourIndices_end by lia. reflexivity.
Qed.

Lemma colourIndices_payload (data : list Z) (m k : nat) :
  (forall i, k <= i < k + m -> addr i < length data) ->
  take m (colourIndices data (addr k)) = map addr (seq k m).
Proof.
  revert k. induction m as [| m IH]; intros k Hfit; [apply take_0 |].
  rewrite colourIndices_addr by (apply Hfit; lia).
  cbn [take seq map]. f_equal. apply IH. intros i Hi. apply Hfit. lia.
Qed.

(** The first eight colour bytes the loop reads lie before the payload. *)
Lemma colourIndices_32 (data : list Z) :
  42 < length data ->
  colourIndices data 32
  = [32; 33; 34; 36; 37; 38; 40; 41] ++ colourIndices data (addr 0).
Proof.
  intros Hlen. change (addr 0) with 42.
  repeat (rewrite colourIndices_step by lia;
          match goal with
          | |- context [(?i + 1) mod 4 =? 0] =>
              let b := eval vm_compute in ((i + 1) mod 4 =? 0) in
              change ((i + 1) mod 4 =? 0) with b; cbv iota
          end;
          match goal with
          | |- context [colourIndices data 42] => idtac
          end;
          try reflexivity).
Qed.

Lemma map_nth_seq_take {A : Type} (l : list A) (d : A) (m : nat) :
  m <= length l -> map (fun i => nth i l d) (seq 0 m) = take m l.
Proof.
  intros Hm. rewrite <- (map_nth_seq_id (take m l) d).
  rewrite length_take. replace (m `min` length l) with m by lia.
  apply map_ext_in. intros i Hi. apply in_seq in Hi.
  rewrite <- (take_drop m l) at 1. rewrite app_nth1; [reflexivity |].
  rewrite length_take. lia.
Qed.

(** ** Text to digits and back *)

Lemma binaryToText_char (c : Z) (rest : list bool) :
  (0 <= c < 256)%Z ->
  binaryToText (JS.padStart 8 (JS.toString2 c) ++ rest) = c :: binaryToText rest.
Proof.
  intros Hc.
  pose proof (numberToBinary_length c 8 ltac:(lia) ltac:(simpl; lia)) as Hlen.
  pose proof (parse_numberToBinary c 8 ltac:(lia)) as Hval.
  unfold numberToBinary in *.
  destruct (JS.padStart 8 (JS.toString2 c))
    as [| b0 [| b1 [| b2 [| b3 [| b4 [| b5 [| b6 [| b7 [| b8 l]]]]]]]]];
    try discriminate Hlen.
  cbn [app binaryToText]. rewrite Hval. reflexivity.
Qed.

Lemma take_char (c : Z) (rest : list bool) (n : nat) :
  (0 <= c < 256)%Z ->
  take (8 * S n) (JS.padStart 8 (JS.toString2 c) ++ rest)
  = JS.padStart 8 (JS.toString2 c) ++ take (8 * n) rest.
Proof.
  intros Hc.
  pose proof (numberToBinary_length c 8 ltac:(lia) ltac:(simpl; lia)) as Hlen.
  unfold numberToBinary in Hlen.
  rewrite take_app, Hlen. rewrite take_ge by lia.
  f_equal. f_equal. lia.
Qed.

(** Decoding the first [8 * n] digits of a text of 8-bit chars gives its
    first [n] chars. *)
Lemma binaryToText_take (text : list Z) (n : nat) :
  Forall (fun c => (0 <= c < 256)%Z) text ->
  binaryToText (take (8 * n) (textToBinary text)) = take n text.
Proof.
  intros Hbytes. revert n.
  induction Hbytes as [| c text Hc _ IH]; intros n.
  - unfold textToBinary. simpl. rewrite !take_nil. reflexivity.
  - destruct n as [| n]; [reflexivity |].
    unfold textToBinary in *. cbn [flat_map].
    rewrite take_char by exact Hc. rewrite binaryToText_char by exact Hc.
    cbn [take]. f_equal. apply IH.
Qed.

(** ** The extracted text of an embedded image *)

Lemma framed_bytes {crypto : CryptoJS} (text : list Z) :
  Forall (fun c => (0 <= c < 256)%Z) text ->
  dataToHideOf text [] = lit "TXT:" ++ text ++ lit "<<EOF>>"
  /\ Forall (fun c => (0 <= c < 256)%Z) (dataToHideOf text []).
Proof.
  intros Hbytes. split; [reflexivity |].
  unfold dataToHideOf. cbv zeta. change (truthy []) with false. cbn [andb].
  apply Forall_app. split; [| apply Forall_app; split; [exact Hbytes |]];
    repeat constructor; lia.
Qed.

Section OneCharLate.
Context {crypto : CryptoJS}.
Variables (pixels : nat) (data text : list Z) (st : store).
Hypothesis Himage : length data = 4 * pixels.
Hypothesis Hbytes : Forall (fun c => (0 <= c < 256)%Z) text.
Hypothesis Hres : hideData data text [] = Resolved st.
Hypothesis Hfit : 32 + 8 * length (dataToHideOf text []) <= 3 * pixels.

Local Abbreviation dataToHide := (dataToHideOf text []).
Local Abbreviation binaryData := (textToBinary dataToHide).

(** The eight bits in front of the payload, as the carrier has them. *)
Local Abbreviation carrierBits :=
  (map (fun j => Z.testbit (rd data j) 0) [32; 33; 34; 36; 37; 38; 40; 41]).

Lemma embedded_facts :
  11 <= length dataToHide
  /\ length binaryData = 8 * length dataToHide
  /\ length (buf st) = length data
  /\ (forall i, i < 8 * length dataToHide -> addr i < length data).
Proof.
  pose proof (dataToHide_length text []) as Hl.
  destruct (framed_bytes text Hbytes) as [_ Hframed].
  split; [lia |]. split; [apply textToBinary_length; exact Hframed |].
  split; [exact (resolved_length _ _ _ _ Hres) |].
  intros i Hi. rewrite Himage. apply addr_in_range. lia.
Qed.

(** The bits collected from the embedded image: eight carrier bits, then
    the payload without its last eight bits. *)
Lemma collected_from_embedded :
  collectBits (S (length (buf st) - 32)) (buf st)
    (Z.of_nat (length dataToHide) * 8) 32 0%Z []
  = Some (carrierBits ++ take (8 * (length dataToHide - 1)) binaryData).
Proof.
  destruct embedded_facts as (H11 & Hbits & Hlen & Haddr).
  assert (take (8 * length dataToHide) (colourIndices (buf st) 32)
          = [32; 33; 34; 36; 37; 38; 40; 41]
            ++ map addr (seq 0 (8 * (length dataToHide - 1)))) as Htake.
  { rewrite (colourIndices_length_only _ data) by exact Hlen.
    rewrite colourIndices_32 by lia.
    replace (8 * length dataToHide)
      with (8 + 8 * (length dataToHide - 1)) by lia.
    rewrite (take_app_add' [32; 33; 34; 36; 37; 38; 40; 41]) by reflexivity.
    f_equal. apply colourIndices_payload. intros i Hi. apply Haddr. lia. }
  rewrite collectBits_enough; [| reflexivity |].
  - replace (Z.to_nat (Z.of_nat (length dataToHide) * 8 - 0))
      with (8 * length dataToHide) by lia.
    rewrite Htake, app_nil_l, map_app. f_equal. f_equal.
    + apply map_ext_in. intros j Hj. f_equal.
      apply (resolved_other_byte _ _ _ _ _ Hres).
      * simpl in Hj. lia.
      * intros i _ E. pose proof (addr_lower i). simpl in Hj. lia.
    + rewrite map_map.
      rewrite <- (map_nth_seq_take binaryData false) by lia.
      apply map_ext_in. intros i Hi. apply in_seq in Hi.
      rewrite (resolved_payload_byte _ _ _ _ _ Hres);
        [apply setLSB_bit0 | lia | apply Haddr; lia].
  - apply (f_equal length) in Htake.
    rewrite length_take, length_app, length_map, length_seq in Htake.
    change (length [32; 33; 34; 36; 37; 38; 40; 41]) with 8 in Htake. lia.
Qed.

(** The extracted text: one char from the carrier, then the framed text
    without its last char. *)
Lemma extracted_from_embedded :
  exists c0 : Z,
    option_map binaryToText
      (collectBits (S (length (buf st) - 32)) (buf st)
         (Z.of_nat (length dataToHide) * 8) 32 0%Z [])
    = Some (c0 :: lit "TXT:" ++ text ++ lit "<<EOF>").
Proof.
  destruct embedded_facts as (H11 & _).
  destruct (framed_bytes text Hbytes) as [Hframe Hframed].
  rewrite collected_from_embedded. cbn [option_map map app binaryToText].
  eexists. f_equal. f_equal.
  rewrite binaryToText_take by exact Hframed.
  rewrite Hframe. rewrite !length_app. cbn [length lit].
  change (length (lit "TXT:")) with 4. change (length (lit "<<EOF>>")) with 7.
  replace (4 + (length text + 7) - 1) with (4 + (length text + 6)) by lia.
  rewrite take_app_add' by reflexivity. f_equal.
  rewrite take_app_add' by reflexivity. f_equal.
Qed.
End OneCharLate.

(** ** Handling a text that is one char late *)

Lemma search_complete (p s : list Z) (j i : nat) :
  JS.startsWith p (drop j s) = true -> j <= length s ->
  JS.search p s i <> None.
Proof.
  revert s i. induction j as [| j IH]; intros s i Hocc Hj.
  - rewrite drop_0 in Hocc. destruct s; simpl; rewrite Hocc; discriminate.
  - destruct s as [| c s]; [simpl in Hj; lia |].
    cbn [JS.search]. destruct (JS.startsWith p (c :: s)); [discriminate |].
    apply IH; [exact Hocc | simpl in Hj; lia].
Qed.

Lemma keepPrintable_length (s : list Z) :
  length (JS.keepPrintable s) <= length s.
Proof. unfold JS.keepPrintable. apply filter_length_le. Qed.

Lemma cleanText_prefix (extractedText : list Z) :
  exists k,
    cleanTextOf extractedText = take k extractedText
    /\ (length extractedText <= k \/ k + 7 <= length extractedText).
Proof.
  unfold cleanTextOf, JS.splitHead.
  destruct (JS.includes (lit "<<EOF>>") extractedText);
    [| exists (length extractedText); split;
       [symmetry; apply firstn_all | left; lia]].
  destruct (JS.search (lit "<<EOF>>") extractedText 0) as [k |] eqn:E.
  - exists k. split; [reflexivity |].
    apply search_found in E as (_ & Hfit & _).
    right. change (length (lit "<<EOF>>")) with 7 in Hfit. lia.
  - exists (length extractedText). split;
      [symmetry; apply firstn_all | left; lia].
Qed.

Section LateText.
Context {crypto : CryptoJS}.
Variables (c0 : Z) (text : list Z).

(** The extracted text of an embedded image: one carrier char, the tag,
    the text, the end marker without its last char. *)
Local Abbreviation late := (c0 :: lit "TXT:" ++ text ++ lit "<<EOF>").

Lemma late_length : length late = length text + 11.
Proof.
  cbn [length]. rewrite !length_app.
  change (length (lit "TXT:")) with 4. change (length (lit "<<EOF>")) with 6.
  lia.
Qed.

Lemma late_prefix_untagged (k : nat) :
  JS.startsWith (lit "ENC:") (take k late) = false
  /\ JS.startsWith (lit "TXT:") (take k late) = false.
Proof.
  destruct k as [| [| k]]; [split; reflexivity | |].
  { split.
    - change (JS.startsWith (lit "ENC:") (take 1 late))
        with ((69 =? c0)%Z && false). apply andb_false_r.
    - change (JS.startsWith (lit "TXT:") (take 1 late))
        with ((84 =? c0)%Z && false). apply andb_false_r. }
  split.
  - change (JS.startsWith (lit "ENC:") (take (S (S k)) late))
      with ((69 =? c0)%Z && false). apply andb_false_r.
  - change (JS.startsWith (lit "TXT:") (take (S (S k)) late))
      with ((84 =? c0)%Z && false). apply andb_false_r.
Qed.

Lemma late_prefix_has_tag (k n : nat) :
  5 <= k -> 5 <= n ->
  JS.includes (lit "TXT:") (take n (take k late)) = true.
Proof.
  intros Hk Hn. unfold JS.includes.
  destruct (JS.search (lit "TXT:") (take n (take k late)) 0) eqn:E;
    [reflexivity | exfalso].
  revert E. apply (search_complete _ _ 1).
  - replace k with (5 + (k - 5)) by lia. replace n with (5 + (n - 5)) by lia.
    reflexivity.
  - rewrite !length_take, late_length. lia.
Qed.

(** Whatever the carrier char and the text, the text handling does not
    resolve with the text when no password is given. *)
Lemma late_text_is_not_recovered :
  processExtracted late [] <> Resolved text.
Proof.
  intros Hrun. unfold processExtracted in Hrun.
  destruct (negb (JS.includes (lit "<<EOF>>") late)
            && negb (JS.includes (lit "TXT:") late
                     || JS.includes (lit "ENC:") late));
    [discriminate Hrun |].
  cbv zeta in Hrun.
  destruct (cleanText_prefix late) as (k & Hclean & Hk).
  rewrite Hclean in Hrun. clear Hclean.
  destruct (late_prefix_untagged k) as [HE HT].
  unfold inferFormat in Hrun. rewrite HE, HT in Hrun.
  destruct (JS.includes (lit "ENC:") (JS.substringTo 20 (take k late)));
    [discriminate Hrun |].
  destruct (JS.includes (lit "TXT:") (JS.substringTo 20 (take k late))) eqn:Hin.
  - destruct (includes_prefix_split _ _ _ Hin)
      as (junk & content & Hsplit & _ & Hfirst & Hcontent).
    change (Z.of_nat (length (lit "TXT:"))) with 4%Z in Hcontent.
    rewrite Hcontent in Hrun. apply Resolved_inj in Hrun. subst content.
    assert (junk <> []) as Hjunk.
    { intros ->. rewrite Hsplit in HT.
      assert (JS.startsWith (lit "TXT:") ([] ++ lit "TXT:" ++ text) = true)
        as Hs by (apply startsWith_app; eexists; reflexivity).
      congruence. }
    assert (1 <= length junk) as Hj by (destruct junk; [congruence | simpl; lia]).
    apply (f_equal length) in Hsplit as Hlen.
    rewrite length_take, !length_app, late_length in Hlen.
    change (length (lit "TXT:")) with 4 in Hlen.
    destruct Hk as [Hall | Hcut]; [| rewrite late_length in Hcut; lia].
    rewrite late_length in Hall.
    apply search_found in Hfirst as (_ & _ & _ & Hmin).
    rewrite Nat.sub_0_r in Hmin.
    destruct (Nat.eq_dec (length junk) 1) as [E1 | Hne]; [lia |].
    specialize (Hmin 1 ltac:(lia)).
    rewrite take_ge in Hmin by (rewrite late_length; lia).
    discriminate Hmin.
  - destruct (Nat.lt_ge_cases k 5) as [Hshort | Hlong].
    + pose proof (keepPrintable_length (take k late)) as Hp.
      rewrite length_take in Hp.
      destruct (Nat.ltb_spec 10 (length (JS.keepPrintable (take k late))));
        [lia | discriminate Hrun].
    + unfold JS.substringTo in Hin.
      rewrite late_prefix_has_tag in Hin by lia. discriminate Hin.
Qed.
End LateText.

(** ** The round trip in general *)

Lemma resolved_readHeader {crypto : CryptoJS}
    (data text password : list Z) (st : store) :
  hideData data text password = Resolved st ->
  (Z.of_nat (length (dataToHideOf text password)) < 2 ^ 32)%Z ->
  readHeader (buf st) = Z.of_nat (length (dataToHideOf text password)).
Proof.
  intros H Hfit.
  rewrite (readHeader_digits _
             (numberToBinary (Z.of_nat (length (dataToHideOf text password))) 32)).
  - apply parse_numberToBinary. lia.
  - apply numberToBinary_length; [lia | simpl; lia].
  - intros i Hi. rewrite (resolved_header_byte _ _ _ _ _ H Hi).
    apply setLSB_bit0.
Qed.

(** X21. For every image buffer and every text of 8-bit chars that fits
    together with the header, embedding without a password and
    extracting without a password never gives the text back. *)
Lemma roundtrip_never_returns_text {crypto : CryptoJS}
    (pixels fuel : nat) (data text : list Z) (st : store) :
  length data = 4 * pixels ->
  Forall (fun c => (0 <= c < 256)%Z) text ->
  hideData data text [] = Resolved st ->
  32 + 8 * length (dataToHideOf text []) <= 3 * pixels ->
  (Z.of_nat (length (dataToHideOf text [])) < 2 ^ 32)%Z ->
  extractData fuel (buf st) [] <> Some (Resolved text).
Proof.
  intros Himage Hbytes Hres Hfit H32 Hrun.
  destruct (embedded_facts pixels data text st Himage Hbytes Hres Hfit)
    as (H11 & _ & Hlen & _).
  pose proof (resolved_readHeader _ _ _ _ Hres H32) as Hhead.
  destruct (extracted_from_embedded pixels data text st Himage Hbytes Hres Hfit)
    as [c0 Hlate].
  rewrite extractData_valid in Hrun.
  - rewrite Hhead in Hrun.
    destruct (collectBits fuel (buf st)
                (Z.of_nat (length (dataToHideOf text [])) * 8) 32 0%Z [])
      as [bits |] eqn:Ebits; [| discriminate Hrun].
    destruct (collectBits (S (length (buf st) - 32)) (buf st)
                (Z.of_nat (length (dataToHideOf text [])) * 8) 32 0%Z [])
      as [bits0 |] eqn:Ebits0; [| discriminate Hlate].
    assert (bits = bits0) as ->.
    { pose proof (collectBits_more_fuel _ (Nat.max fuel (S (length (buf st) - 32)))
                    _ _ _ _ _ _ Ebits (Nat.le_max_l _ _)) as E1.
      pose proof (collectBits_more_fuel _ (Nat.max fuel (S (length (buf st) - 32)))
                    _ _ _ _ _ _ Ebits0 (Nat.le_max_r _ _)) as E2.
      congruence. }
    cbn [option_map] in Hlate.
    assert (binaryToText bits0 = c0 :: lit "TXT:" ++ text ++ lit "<<EOF>")
      as Htext by congruence.
    rewrite Htext in Hrun.
    apply (late_text_is_not_recovered c0 text). congruence.
  - rewrite Hhead, Hlen, Himage. intros [Hbad | Hbad]; [lia |].
    apply gtQ_spec in Hbad. rewrite gtQ_quarter in Hbad.
    apply Z.ltb_lt in Hbad. lia.
Qed.

(** ** The round trip and the capacity check on concrete images *)

Lemma settled_same_length {A : Type} (a b : list A) :
  Some (Resolved a) = Some (Resolved b) -> length a = length b.
Proof. intros H. injection H as ->. reflexivity. Qed.

(** C1. The round trip fails on the smallest of examples.  "hello" is
    embedded without a password in a blank image of 100 pixels (the
    framed text has 16 chars, the computed maximum is 37).  The payload
    starts at byte 42, the collection loop starts reading at byte 32, so
    the extracted text is one char late and one char short: the end
    marker is cut, the tag is found at position 1, and the promise
    resolves with "hello<<EOF>".  No amount of fuel gives "hello". *)
Theorem roundtrip_hello_differs :
  hideData (crypto := plainCrypto) (blank 100) (lit "hello") []
  = Resolved helloStore
  /\ (Z.of_nat (length (dataToHideOf (crypto := plainCrypto) (lit "hello") []))
      <= maxDataSizeOf (blank 100))%Z
  /\ addr 0 = 42
  /\ binaryToText helloBits = 0%Z :: lit "TXT:hello<<EOF>"
  /\ extractData (crypto := plainCrypto) 200 (buf helloStore) []
     = Some (Resolved (lit "hello<<EOF>"))
  /\ forall fuel,
       extractData (crypto := plainCrypto) fuel (buf helloStore) []
       <> Some (Resolved (lit "hello")).
Proof.
  assert (extractData (crypto := plainCrypto) 200 (buf helloStore) []
          = Some (Resolved (lit "hello<<EOF>"))) as Hrun
    by (vm_compute; reflexivity).
  split; [vm_compute; reflexivity |].
  split; [vm_compute; discriminate |].
  split; [reflexivity |].
  split; [vm_compute; reflexivity |].
  split; [exact Hrun |].
  intros fuel H.
  destruct (Nat.le_ge_cases fuel 200) as [Hle | Hge].
  - rewrite (extractData_more_fuel _ _ _ _ _ H Hle) in Hrun.
    apply settled_same_length in Hrun. vm_compute in Hrun. discriminate Hrun.
  - rewrite (extractData_more_fuel _ _ _ _ _ Hrun Hge) in H.
    apply settled_same_length in H. vm_compute in H. discriminate H.
Qed.

(** Right at the computed maximum the embedded image cannot be read
    back at all: the header asks for more bits than there are colour
    bytes past offset 32. *)
Lemma roundtrip_at_maximum_never_ends (fuel : nat) :
  (Z.of_nat (length (dataToHideOf (crypto := plainCrypto) (replicate 26 97%Z) []))
   = maxDataSizeOf (blank 100))%Z
  /\ extractData (crypto := plainCrypto) fuel
       (embedded (blank 100) (replicate 26 97%Z)) [] = None.
Proof.
  split; [vm_compute; reflexivity |].
  unfold extractData. cbv zeta.
  rewrite collectBits_too_few by (vm_compute; reflexivity).
  vm_compute. reflexivity.
Qed.

(** C2. The capacity check compares with the computed maximum itself,
    not with the maximum less the header.  In a blank image of 100
    pixels the maximum is 37; a framed text of 34 chars exceeds
    37 - 4 = 33, and [hideData] resolves all the same; the last four of
    its 272 payload bits have an address past the end of the buffer and
    are dropped by the guard of the payload loop. *)
Theorem capacity_check_ignores_header :
  maxDataSizeOf (blank 100) = 37%Z
  /\ length (dataToHideOf (crypto := plainCrypto) crowdedText []) = 34
  /\ hideData (crypto := plainCrypto) (blank 100) crowdedText []
     = Resolved crowdedStore
  /\ length (textToBinary (dataToHideOf (crypto := plainCrypto) crowdedText []))
     = 272
  /\ length (drop 32 (writes crowdedStore)) = 268
  /\ (forall i, 268 <= i -> length (blank 100) <= addr i)
  /\ message (DataTooLarge 37)
     = "Data too large for this image. Maximum: 37 characters"%string.
Proof.
  do 5 (split; [vm_compute; reflexivity |]).
  split; [| vm_compute; reflexivity].
  intros i Hi. change (length (blank 100)) with (4 * 100).
  destruct (Nat.le_gt_cases (4 * 100) (addr i)) as [H | H]; [exact H |].
  apply addr_in_range in H. lia.
Qed.

(** X22. The capacity check in general: in an image buffer, an
    unencrypted text of 8-bit chars whose framed length lies above the
    maximum less 4 and not above the maximum is accepted, and its last
    payload bit has no byte. *)
Lemma hideData_accepts_truncation {crypto : CryptoJS}
    (pixels : nat) (data text : list Z) :
  length data = 4 * pixels ->
  Forall (fun c => (0 <= c < 256)%Z) text ->
  (maxDataSizeOf data - 4 < Z.of_nat (length (dataToHideOf text []))
   <= maxDataSizeOf data)%Z ->
  exists st,
    hideData data text [] = Resolved st
    /\ length (textToBinary (dataToHideOf text []))
       = 8 * length (dataToHideOf text [])
    /\ length data
       <= addr (length (textToBinary (dataToHideOf text [])) - 1).
Proof.
  intros Hlen Hbytes Hrange.
  assert (length (textToBinary (dataToHideOf text []))
          = 8 * length (dataToHideOf text [])) as Hbits.
  { apply textToBinary_length. unfold dataToHideOf. cbv zeta.
    change (truthy []) with false. cbn [andb].
    apply Forall_app. split; [| apply Forall_app; split; [exact Hbytes |]];
      repeat constructor; lia. }
  pose proof (dataToHide_length text []) as Hl.
  change (truthy [] && (0 <? length (@nil Z))) with false in Hl.
  destruct (hideData data text []) as [st | e] eqn:E.
  - exists st. split; [reflexivity |]. split; [exact Hbits |].
    rewrite Hbits, Hlen.
    destruct (Nat.le_gt_cases (4 * pixels)
                (addr (8 * length (dataToHideOf text []) - 1))) as [H | H];
      [exact H | exfalso].
    apply addr_in_range in H.
    rewrite maxDataSize_div, Hlen in Hrange.
    revert Hrange H Hl. generalize (length (dataToHideOf text [])).
    intros L Hrange H Hl. Z.div_mod_to_equations. lia.
  - exfalso. apply hideData_rejected_iff in E as [E _]. lia.
Qed.

(** The scenario of a 64x64 image: "hello" without a password comes back
    as "hello<<EOF>". *)
Lemma roundtrip_64x64_differs :
  extractData (crypto := plainCrypto) 200
    (embedded (blank (64 * 64)) (lit "hello")) []
  = Some (Resolved (lit "hello<<EOF>")).
Proof. vm_compute. reflexivity. Qed.

(** ** The fallback for unknown formats *)

Section RecoveryClaims.
Context {crypto : CryptoJS}.

(** C8, as the code has it.  When no tag is recognised and the
    extracted text holds the end marker or a tag somewhere, the chars
    outside 0x20..0x7E are removed from the text cut at the end marker;
    more than 10 chars left resolve the promise with 'Partial recovery: '
    in front of them, otherwise the promise is rejected with 'Unknown
    data format. Could not extract hidden text.'  When the extracted
    text holds neither the end marker nor a tag, the promise is rejected
    before that with 'Data extraction failed: No valid data format or
    end marker found'. *)
Theorem unknown_format_fallback (fuel : nat) (data password : list Z)
    (extractedBinary : list bool) (extractedText cleanText : list Z) :
  ~ ((readHeader data <= 0)%Z
     \/ (inject_Z (Z.of_nat (length data)) / 4 < inject_Z (readHeader data))%Q) ->
  collectBits fuel data (readHeader data * 8) 32 0%Z [] = Some extractedBinary ->
  binaryToText extractedBinary = extractedText ->
  cleanTextOf extractedText = cleanText ->
  fst (inferFormat cleanText) = unknown ->
  (JS.includes (lit "<<EOF>>") extractedText = true
   \/ JS.includes (lit "TXT:") extractedText = true
   \/ JS.includes (lit "ENC:") extractedText = true ->
   extractData fuel data password
   = Some (if 10 <? length (JS.keepPrintable cleanText)
           then Resolved (lit "Partial recovery: " ++ JS.keepPrintable cleanText)
           else Rejected UnknownFormat))
  /\ (JS.includes (lit "<<EOF>>") extractedText = false ->
      JS.includes (lit "TXT:") extractedText = false ->
      JS.includes (lit "ENC:") extractedText = false ->
      extractData fuel data password = Some (Rejected NoFormatOrEndMarker))
  /\ message UnknownFormat
     = "Unknown data format. Could not extract hidden text."%string.
Proof.
  intros Hvalid Hbits <- <- Hunknown.
  rewrite (extractData_valid fuel data password Hvalid), Hbits.
  split; [| split; [| reflexivity]].
  - intros Hmark. rewrite processExtracted_marked by exact Hmark.
    destruct (inferFormat (cleanTextOf (binaryToText extractedBinary)))
      as [[| |] processedText]; simpl in Hunknown;
      [reflexivity | discriminate Hunknown | discriminate Hunknown].
  - intros H1 H2 H3. rewrite processExtracted_unmarked; auto.
Qed.
End RecoveryClaims.

(** C8, as stated, fails: the extracted text "Hello, world" carries no
    tag, all of its 12 chars are printable, and the promise is neither
    resolved with the partial recovery nor rejected with the unknown
    format error; it is rejected with 'Data extraction failed: No valid
    data format or end marker found'. *)
Lemma bare_text_is_rejected_early :
  option_map binaryToText
    (collectBits 200 bareCarrier (readHeader bareCarrier * 8) 32 0%Z [])
  = Some (lit "Hello, world")
  /\ fst (inferFormat (cleanTextOf (lit "Hello, world"))) = unknown
  /\ JS.keepPrintable (cleanTextOf (lit "Hello, world")) = lit "Hello, world"
  /\ 10 < length (lit "Hello, world")
  /\ extractData (crypto := plainCrypto) 200 bareCarrier []
     = Some (Rejected NoFormatOrEndMarker)
  /\ extractData (crypto := plainCrypto) 200 bareCarrier []
     <> Some (Resolved (lit "Partial recovery: Hello, world"))
  /\ extractData (crypto := plainCrypto) 200 bareCarrier []
     <> Some (Rejected UnknownFormat).
Proof.
  assert (extractData (crypto := plainCrypto) 200 bareCarrier []
          = Some (Rejected NoFormatOrEndMarker)) as Hrun
    by (vm_compute; reflexivity).
  do 3 (split; [vm_compute; reflexivity |]).
  split; [vm_compute; lia |].
  split; [exact Hrun |].
  rewrite Hrun. split; intros H; discriminate H.
Qed.

(** ** The older copy on the recovery branches *)

(** In the older copy the two recovery branches never hand anything on:
    the assignment to the constant [cleanText] throws. *)
Lemma attached_recovery_throws {crypto : CryptoJS}
    (extractedText password : list Z) :
  JS.startsWith (lit "ENC:") (cleanTextOf extractedText) = false ->
  JS.startsWith (lit "TXT:") (cleanTextOf extractedText) = false ->
  JS.includes (lit "ENC:") (JS.substringTo 20 (cleanTextOf extractedText)) = true
  \/ JS.includes (lit "TXT:") (JS.substringTo 20 (cleanTextOf extractedText)) = true ->
  Attached.processExtracted extractedText password = Rejected ConstAssignment.
Proof.
  intros HE HT Hin. unfold Attached.processExtracted. cbv zeta.
  assert (JS.includes (lit "TXT:") extractedText
          || JS.includes (lit "ENC:") extractedText = true) as Hmark.
  { apply orb_true_iff.
    destruct Hin as [Hin | Hin]; [right | left];
      apply includes_cleanText; eapply includes_take; exact Hin. }
  rewrite Hmark, andb_false_r, HE, HT.
  destruct (JS.includes (lit "ENC:")
              (JS.substringTo 20 (cleanTextOf extractedText))) eqn:E;
    [reflexivity |].
  destruct Hin as [Hin | Hin]; [discriminate Hin |].
  rewrite Hin. reflexivity.
Qed.

Lemma attached_hello_throws :
  Attached.extractData (crypto := plainCrypto) 200 (buf helloStore) []
  = Some (Rejected ConstAssignment).
Proof. vm_compute. reflexivity. Qed.

(** ** The theorems at work on the fixtures *)

Lemma hideData_writes_in_bounds_witness :
  11 <= length (dataToHideOf (crypto := plainCrypto) (lit "hello") [])
  /\ (11 <= maxDataSizeOf (blank 100))%Z
  /\ (length (blank 100) mod 4 = 0 -> 120 <= length (blank 100))
  /\ 32 < length (blank 100)
  /\ length (buf helloStore) = length (blank 100)
  /\ take 32 (writes helloStore) = seq 0 32
  /\ Forall (fun j => j < length (blank 100)) (writes helloStore).
Proof.
  exact (hideData_writes_in_bounds (crypto := plainCrypto)
           (blank 100) (lit "hello") [] helloStore helloStore_resolved).
Defined.

Lemma hideData_preserves_alpha_witness :
  buf helloStore !! 47 = blank 100 !! 47
  /\ Forall (fun j => (j + 1) mod 4 <> 0) (drop 32 (writes helloStore)).
Proof.
  destruct (hideData_preserves_alpha (crypto := plainCrypto)
              (blank 100) (lit "hello") [] helloStore helloStore_resolved)
    as [Hbyte Hwrites].
  split; [| exact Hwrites].
  apply Hbyte; [lia | vm_compute; reflexivity].
Defined.

Lemma payload_bit_addressing_witness :
  Z.testbit (rd (buf helloStore) (addr 1)) 0
  = nth 1 (textToBinary (dataToHideOf (crypto := plainCrypto) (lit "hello") []))
      false.
Proof.
  apply (proj1 (payload_bit_addressing (crypto := plainCrypto)
                  (blank 100) (lit "hello") [] helloStore helloStore_resolved)).
  - vm_compute. lia.
  - vm_compute. intros H. discriminate H.
  - vm_compute. lia.
Defined.

Lemma header_fidelity_witness :
  readHeader (buf helloStore)
  = Z.of_nat (length (dataToHideOf (crypto := plainCrypto) (lit "hello") [])).
Proof.
  assert (Z.of_nat (length (dataToHideOf (crypto := plainCrypto) (lit "hello") []))
          < 2 ^ 32)%Z as Hfit by (vm_compute; reflexivity).
  apply (proj2 (proj2 (proj2
           (header_fidelity (crypto := plainCrypto)
              (blank 100) (lit "hello") [] helloStore helloStore_resolved Hfit)))).
  reflexivity.
Defined.

Lemma length_validation_witness :
  extractData (crypto := plainCrypto) 200 (buf helloStore) []
  = match collectBits 200 (buf helloStore)
            (readHeader (buf helloStore) * 8) 32 0%Z [] with
    | None => None
    | Some extractedBinary =>
        Some (processExtracted (crypto := plainCrypto)
                (binaryToText extractedBinary) [])
    end.
Proof.
  apply (proj1 (proj2 (length_validation (crypto := plainCrypto)
                         200 (buf helloStore) []))).
  vm_compute. intros [H | H]; [apply H; reflexivity | discriminate H].
Defined.

Lemma helloStore_header_valid :
  ~ ((readHeader (buf helloStore) <= 0)%Z
     \/ (inject_Z (Z.of_nat (length (buf helloStore))) / 4
         < inject_Z (readHeader (buf helloStore)))%Q).
Proof.
  vm_compute. intros [H | H]; [apply H; reflexivity | discriminate H].
Qed.

Lemma untaggedCarrier_header_valid :
  ~ ((readHeader untaggedCarrier <= 0)%Z
     \/ (inject_Z (Z.of_nat (length untaggedCarrier)) / 4
         < inject_Z (readHeader untaggedCarrier))%Q).
Proof.
  vm_compute. intros [H | H]; [apply H; reflexivity | discriminate H].
Qed.

Lemma unknown_format_fallback_witness :
  extractData (crypto := plainCrypto) 400 untaggedCarrier []
  = Some (Resolved (lit "Partial recovery: Hello, world")).
Proof.
  rewrite (proj1 (unknown_format_fallback (crypto := plainCrypto)
                    400 untaggedCarrier [] untaggedBits
                    (binaryToText untaggedBits)
                    (cleanTextOf (binaryToText untaggedBits))
                    untaggedCarrier_header_valid
                    ltac:(vm_compute; reflexivity) eq_refl eq_refl
                    ltac:(vm_compute; reflexivity))).
  - vm_compute. reflexivity.
  - left. vm_compute. reflexivity.
Defined.

(** * Further properties *)

(** ** The Caesar cipher *)

Section Caesar.
Context {lib : Encryption.Library}.

Lemma shiftChar_upper (shift code : Z) :
  (0 <= shift)%Z -> (65 <= code <= 90)%Z ->
  Encryption.shiftChar shift code = ((code - 65 + shift) mod 26 + 65)%Z.
Proof.
  intros Hs Hc. unfold Encryption.shiftChar.
  assert ((65 <=? code)%Z && (code <=? 90)%Z = true) as ->
    by (apply andb_true_iff; split; apply Z.leb_le; lia).
  rewrite Z.rem_mod_nonneg by lia. reflexivity.
Qed.

Lemma shiftChar_lower (shift code : Z) :
  (0 <= shift)%Z -> (97 <= code <= 122)%Z ->
  Encryption.shiftChar shift code = ((code - 97 + shift) mod 26 + 97)%Z.
Proof.
  intros Hs Hc. unfold Encryption.shiftChar.
  assert ((65 <=? code)%Z && (code <=? 90)%Z = false) as ->
    by (apply andb_false_iff; right; apply Z.leb_gt; lia).
  assert ((97 <=? code)%Z && (code <=? 122)%Z = true) as ->
    by (apply andb_true_iff; split; apply Z.leb_le; lia).
  rewrite Z.rem_mod_nonneg by lia. reflexivity.
Qed.

Lemma shiftChar_other (shift code : Z) :
  ~ (65 <= code <= 90)%Z -> ~ (97 <= code <= 122)%Z ->
  Encryption.shiftChar shift code = code.
Proof.
  intros H1 H2. unfold Encryption.shiftChar.
  destruct (Z.leb_spec 65 code); destruct (Z.leb_spec code 90);
    destruct (Z.leb_spec 97 code); destruct (Z.leb_spec code 122);
    simpl; try reflexivity; lia.
Qed.

(** The three kinds of code units. *)
Lemma code_kind (code : Z) :
  (65 <= code <= 90)%Z \/ (97 <= code <= 122)%Z
  \/ (~ (65 <= code <= 90)%Z /\ ~ (97 <= code <= 122)%Z).
Proof. lia. Qed.

(** Two shifts one after the other are the shift by their sum modulo 26. *)
Lemma shiftChar_twice (a b code : Z) :
  (0 <= a)%Z -> (0 <= b)%Z ->
  Encryption.shiftChar b (Encryption.shiftChar a code)
  = Encryption.shiftChar ((a + b) mod 26) code.
Proof.
  intros Ha Hb.
  assert (0 <= (a + b) mod 26 < 26)%Z as Hr by (apply Z.mod_pos_bound; lia).
  destruct (code_kind code) as [Hc | [Hc | [H1 H2]]].
  - rewrite (shiftChar_upper a code), (shiftChar_upper ((a + b) mod 26) code)
      by lia.
    rewrite shiftChar_upper; [| lia |].
    + f_equal. Z.div_mod_to_equations. lia.
    + Z.div_mod_to_equations. lia.
  - rewrite (shiftChar_lower a code), (shiftChar_lower ((a + b) mod 26) code)
      by lia.
    rewrite shiftChar_lower; [| lia |].
    + f_equal. Z.div_mod_to_equations. lia.
    + Z.div_mod_to_equations. lia.
  - rewrite (shiftChar_other a code), (shiftChar_other b code),
      (shiftChar_other _ code) by assumption.
    reflexivity.
Qed.

Lemma shiftChar_zero (code : Z) : Encryption.shiftChar 0 code = code.
Proof.
  destruct (code_kind code) as [Hc | [Hc | [H1 H2]]].
  - rewrite shiftChar_upper by lia. Z.div_mod_to_equations. lia.
  - rewrite shiftChar_lower by lia. Z.div_mod_to_equations. lia.
  - apply shiftChar_other; assumption.
Qed.

Lemma caesarCipher_valid (text : list Z) (shift : Encryption.shiftArg) (s : Z) :
  Encryption.parseShift shift = Some s -> (1 <= s <= 25)%Z ->
  Encryption.caesarCipher text shift
  = Encryption.Returned (map (Encryption.shiftChar s) text).
Proof.
  intros Hp Hs. unfold Encryption.caesarCipher. rewrite Hp.
  assert ((s <? 1)%Z || (25 <? s)%Z = false) as ->
    by (apply orb_false_iff; split; apply Z.ltb_ge; lia).
  reflexivity.
Qed.

Lemma caesarDecipher_valid (text : list Z) (shift : Encryption.shiftArg) (s : Z) :
  Encryption.parseShift shift = Some s -> (1 <= s <= 25)%Z ->
  Encryption.caesarDecipher text shift
  = Encryption.Returned (map (Encryption.shiftChar (26 - s)) text).
Proof.
  intros Hp Hs. unfold Encryption.caesarDecipher. rewrite Hp.
  assert ((s <? 1)%Z || (25 <? s)%Z = false) as ->
    by (apply orb_false_iff; split; apply Z.ltb_ge; lia).
  reflexivity.
Qed.

Lemma shift_back (s : Z) (text : list Z) :
  (1 <= s <= 25)%Z ->
  map (Encryption.shiftChar (26 - s)) (map (Encryption.shiftChar s) text) = text
  /\ map (Encryption.shiftChar s) (map (Encryption.shiftChar (26 - s)) text) = text.
Proof.
  intros Hs. split; rewrite map_map; rewrite <- (map_id text) at 2;
    apply map_ext; intros code; rewrite shiftChar_twice by lia.
  - replace (s + (26 - s))%Z with 26%Z by lia. apply shiftChar_zero.
  - replace (26 - s + s)%Z with 26%Z by lia. apply shiftChar_zero.
Qed.
End Caesar.

Section CaesarProperties.
Context {lib : Encryption.Library}.

(** A number below 10^21 in magnitude is read as itself. *)
Lemma parseShift_number (n : Z) :
  (Z.abs n < 10 ^ 21)%Z ->
  Encryption.parseShift (Encryption.ShiftNumber n) = Some n.
Proof.
  intros H. unfold Encryption.parseShift.
  apply Z.ltb_lt in H. rewrite H. reflexivity.
Qed.

Lemma parseShift_small (n : Z) :
  (0 <= n <= 25)%Z ->
  Encryption.parseShift (Encryption.ShiftNumber n) = Some n.
Proof.
  intros H. apply parseShift_number.
  change (10 ^ 21)%Z with 1000000000000000000000%Z. lia.
Qed.

(** X1. With a shift from 1 to 25, [caesarDecipher] undoes [caesarCipher]
    and [caesarCipher] undoes [caesarDecipher], on every text. *)
Theorem caesar_round_trip (text : list Z) (shift : Encryption.shiftArg) (s : Z) :
  Encryption.parseShift shift = Some s -> (1 <= s <= 25)%Z ->
  match Encryption.caesarCipher text shift with
  | Encryption.Returned ciphered =>
      Encryption.caesarDecipher ciphered shift = Encryption.Returned text
  | Encryption.Threw _ => False
  end
  /\ match Encryption.caesarDecipher text shift with
     | Encryption.Returned deciphered =>
         Encryption.caesarCipher deciphered shift = Encryption.Returned text
     | Encryption.Threw _ => False
     end.
Proof.
  intros Hp Hs. destruct (shift_back s text Hs) as [H1 H2].
  rewrite (caesarCipher_valid text shift s Hp Hs).
  rewrite (caesarDecipher_valid text shift s Hp Hs).
  rewrite (caesarDecipher_valid _ shift s Hp Hs).
  rewrite (caesarCipher_valid _ shift s Hp Hs).
  rewrite H1, H2. split; reflexivity.
Qed.

(** X2. With a shift from 1 to 25 the cipher keeps the length of the
    text; a capital letter becomes another capital letter, a small letter
    another small letter, and every other code unit stays as it is. *)
Theorem caesar_keeps_shape (text : list Z) (shift : Encryption.shiftArg) (s : Z) :
  Encryption.parseShift shift = Some s -> (1 <= s <= 25)%Z ->
  exists ciphered,
    Encryption.caesarCipher text shift = Encryption.Returned ciphered
    /\ length ciphered = length text
    /\ forall i code,
         text !! i = Some code ->
         exists code',
           ciphered !! i = Some code'
           /\ ((65 <= code <= 90)%Z -> (65 <= code' <= 90)%Z /\ code' <> code)
           /\ ((97 <= code <= 122)%Z -> (97 <= code' <= 122)%Z /\ code' <> code)
           /\ (~ (65 <= code <= 90)%Z -> ~ (97 <= code <= 122)%Z -> code' = code).
Proof.
  intros Hp Hs. exists (map (Encryption.shiftChar s) text).
  split; [apply caesarCipher_valid; assumption |].
  split; [apply length_map |].
  intros i code Hi. exists (Encryption.shiftChar s code).
  split; [rewrite list_lookup_fmap, Hi; reflexivity |].
  split; [| split].
  - intros Hc. rewrite shiftChar_upper by lia. Z.div_mod_to_equations. lia.
  - intros Hc. rewrite shiftChar_lower by lia. Z.div_mod_to_equations. lia.
  - intros H1 H2. apply shiftChar_other; assumption.
Qed.

(** X3. Ciphering with shift [a] and then with shift [b] is ciphering
    once with [(a + b) mod 26]; when that is 0 the text comes back
    unchanged. *)
Theorem caesar_compose (text : list Z) (a b : Z) :
  (1 <= a <= 25)%Z -> (1 <= b <= 25)%Z ->
  match Encryption.caesarCipher text (Encryption.ShiftNumber a) with
  | Encryption.Returned once =>
      Encryption.caesarCipher once (Encryption.ShiftNumber b)
      = if ((a + b) mod 26 =? 0)%Z
        then Encryption.Returned text
        else Encryption.caesarCipher text
               (Encryption.ShiftNumber ((a + b) mod 26))
  | Encryption.Threw _ => False
  end.
Proof.
  intros Ha Hb.
  rewrite (caesarCipher_valid text (Encryption.ShiftNumber a) a
             (parseShift_small a ltac:(lia)) Ha).
  rewrite (caesarCipher_valid _ (Encryption.ShiftNumber b) b
             (parseShift_small b ltac:(lia)) Hb).
  rewrite map_map.
  assert (map (fun code => Encryption.shiftChar b (Encryption.shiftChar a code)) text
          = map (Encryption.shiftChar ((a + b) mod 26)) text) as ->
    by (apply map_ext; intros code; apply shiftChar_twice; lia).
  destruct (Z.eqb_spec ((a + b) mod 26) 0) as [E | Hne].
  - rewrite E. f_equal. rewrite <- (map_id text) at 2.
    apply map_ext. apply shiftChar_zero.
  - pose proof (Z.mod_pos_bound (a + b) 26 ltac:(lia)) as Hm.
    rewrite (caesarCipher_valid text
               (Encryption.ShiftNumber ((a + b) mod 26)) ((a + b) mod 26)
               (parseShift_small ((a + b) mod 26) ltac:(lia)));
      [reflexivity | lia].
Qed.
End CaesarProperties.

(** ** encrypt and decrypt *)

Section EncryptDecrypt.
Context {lib : Encryption.Library}.

Lemma truthy_nonempty (s : list Z) : s <> [] -> truthy s = true.
Proof. destruct s; [congruence | reflexivity]. Qed.

Lemma encrypt_caesar (text key outputFormat : list Z)
    (caesarShift : option Encryption.shiftArg) :
  text <> [] ->
  Encryption.encrypt text key (lit "caesar") outputFormat caesarShift
  = Encryption.rethrow "Encryption failed: "
      (Encryption.caesarCipher text (Encryption.shiftOrDefault caesarShift)).
Proof.
  intros Ht. unfold Encryption.encrypt. rewrite truthy_nonempty by exact Ht.
  change (Encryption.named "caesar" (lit "caesar")) with true.
  rewrite andb_false_r. reflexivity.
Qed.

Lemma decrypt_caesar (text key inputFormat : list Z)
    (caesarShift : option Encryption.shiftArg) :
  text <> [] ->
  Encryption.decrypt text key (lit "caesar") inputFormat caesarShift
  = Encryption.rethrow "Decryption failed: "
      (Encryption.caesarDecipher text (Encryption.shiftOrDefault caesarShift)).
Proof.
  intros Ht. unfold Encryption.decrypt. rewrite truthy_nonempty by exact Ht.
  change (Encryption.named "caesar" (lit "caesar")) with true.
  rewrite andb_false_r. reflexivity.
Qed.

(** X4. Through the two public methods the Caesar cipher round-trips:
    for a text that is not empty and a shift option that stands for a
    number from 1 to 25 (an absent or empty option stands for 3),
    [decrypt] gives back what [encrypt] was given, whatever the keys and
    the formats are. *)
Theorem encrypt_decrypt_caesar (text key key' outputFormat inputFormat : list Z)
    (caesarShift : option Encryption.shiftArg) (s : Z) :
  text <> [] ->
  Encryption.parseShift (Encryption.shiftOrDefault caesarShift) = Some s ->
  (1 <= s <= 25)%Z ->
  match Encryption.encrypt text key (lit "caesar") outputFormat caesarShift with
  | Encryption.Returned ciphered =>
      Encryption.decrypt ciphered key' (lit "caesar") inputFormat caesarShift
      = Encryption.Returned text
  | Encryption.Threw _ => False
  end.
Proof.
  intros Ht Hp Hs. rewrite encrypt_caesar by exact Ht.
  rewrite (caesarCipher_valid text _ s Hp Hs). cbn [Encryption.rethrow].
  rewrite decrypt_caesar by (destruct text; [congruence | discriminate]).
  rewrite (caesarDecipher_valid _ _ s Hp Hs). cbn [Encryption.rethrow].
  f_equal. apply shift_back. exact Hs.
Qed.

(** X5. The checks of [encrypt], in their order: an empty text is
    refused first; then an empty key, unless the algorithm is 'caesar';
    an algorithm that is none of the six is refused only after that, from
    inside the [try], and so is a Caesar shift outside 1..25; an absent
    or empty shift option means the shift 3. *)
Theorem encrypt_checks (text key algorithm outputFormat : list Z)
    (caesarShift : option Encryption.shiftArg) :
  Encryption.encrypt [] key algorithm outputFormat caesarShift
  = Encryption.Threw "Please enter text to encrypt"
  /\ (text <> [] -> algorithm <> lit "caesar" ->
      Encryption.encrypt text [] algorithm outputFormat caesarShift
      = Encryption.Threw "Please enter an encryption key")
  /\ (text <> [] -> key <> [] -> algorithm <> lit "caesar" ->
      Encryption.cipherOf algorithm = None ->
      Encryption.encrypt text key algorithm outputFormat caesarShift
      = Encryption.Threw "Encryption failed: Unknown encryption algorithm")
  /\ (text <> [] ->
      (forall s, Encryption.parseShift (Encryption.shiftOrDefault caesarShift)
                 = Some s -> (s < 1)%Z \/ (25 < s)%Z) ->
      Encryption.encrypt text key (lit "caesar") outputFormat caesarShift
      = Encryption.Threw "Encryption failed: Caesar shift must be between 1 and 25")
  /\ (text <> [] ->
      Encryption.encrypt text [] (lit "caesar") outputFormat None
      = Encryption.Returned (map (Encryption.shiftChar 3) text)
      /\ Encryption.encrypt text [] (lit "caesar") outputFormat
           (Some (Encryption.ShiftText []))
         = Encryption.Returned (map (Encryption.shiftChar 3) text)).
Proof.
  split; [reflexivity |]. split; [| split; [| split]].
  - intros Ht Ha. unfold Encryption.encrypt.
    rewrite truthy_nonempty by exact Ht. cbn [negb truthy andb].
    unfold Encryption.named. rewrite bool_decide_eq_false_2 by exact Ha.
    reflexivity.
  - intros Ht Hk Ha Hnone. unfold Encryption.encrypt.
    rewrite !truthy_nonempty by assumption. cbn [negb andb]. rewrite Hnone.
    unfold Encryption.named at 1. rewrite bool_decide_eq_false_2 by exact Ha.
    reflexivity.
  - intros Ht Hbad. rewrite encrypt_caesar by exact Ht.
    unfold Encryption.caesarCipher.
    destruct (Encryption.parseShift (Encryption.shiftOrDefault caesarShift))
      as [s |]; [| reflexivity].
    assert ((s <? 1)%Z || (25 <? s)%Z = true) as ->; [| reflexivity].
    apply orb_true_iff.
    destruct (Hbad s eq_refl); [left | right]; apply Z.ltb_lt; lia.
  - intros Ht. split; rewrite encrypt_caesar by exact Ht; reflexivity.
Qed.

Lemma decrypt_not_empty (encryptedText key algorithm inputFormat : list Z)
    (caesarShift : option Encryption.shiftArg) :
  Encryption.decrypt encryptedText key algorithm inputFormat caesarShift
  <> Encryption.Returned [].
Proof.
  unfold Encryption.decrypt, Encryption.caesarDecipher.
  destruct encryptedText as [| c rest]; [discriminate |].
  cbn [truthy negb].
  repeat case_match; cbn [Encryption.rethrow]; try discriminate.
  all: try (intros E; injection E as E; subst; discriminate).
Qed.

(** X6. [decrypt] never returns the empty text: an empty input and an
    empty result of a CryptoJS cipher are turned into exceptions, and the
    Caesar cipher keeps the length of a text that is not empty. *)
Theorem decrypt_never_returns_empty (encryptedText key algorithm inputFormat : list Z)
    (caesarShift : option Encryption.shiftArg) :
  match Encryption.decrypt encryptedText key algorithm inputFormat caesarShift with
  | Encryption.Returned result => truthy result = true
  | Encryption.Threw _ => True
  end.
Proof.
  destruct (Encryption.decrypt encryptedText key algorithm inputFormat caesarShift)
    as [result | message] eqn:E; [| exact I].
  destruct result as [| c result]; [| reflexivity].
  exfalso. exact (decrypt_not_empty _ _ _ _ _ E).
Qed.
End EncryptDecrypt.

(** ** The conversions between text, numbers and digits *)

Lemma parse_bound (s : list bool) :
  (0 <= JS.parseInt2 s < 2 ^ Z.of_nat (length s))%Z.
Proof.
  induction s as [| b s IH] using rev_ind; [vm_compute; split; congruence |].
  rewrite parse_snoc, length_app. cbn [length].
  replace (Z.of_nat (length s + 1)) with (Z.succ (Z.of_nat (length s))) by lia.
  rewrite Z.pow_succ_r by lia. destruct b; cbn [Z.b2z]; lia.
Qed.

Lemma binaryToText_bytes_upto (n : nat) (binary : list bool) :
  length binary <= n ->
  Forall (fun c => (0 <= c < 256)%Z) (binaryToText binary).
Proof.
  revert binary. induction n as [| n IH]; intros binary Hn.
  - destruct binary; [constructor | simpl in Hn; lia].
  - destruct binary as [| b0 [| b1 [| b2 [| b3 [| b4 [| b5 [| b6 [| b7 rest]]]]]]]];
      try constructor.
    + exact (parse_bound [b0; b1; b2; b3; b4; b5; b6; b7]).
    + apply IH. simpl in Hn. lia.
Qed.

(** Whatever the digits, [binaryToText] gives chars below 256. *)
Lemma binaryToText_bytes (binary : list bool) :
  Forall (fun c => (0 <= c < 256)%Z) (binaryToText binary).
Proof. apply (binaryToText_bytes_upto (length binary)). lia. Qed.

Lemma binaryToText_textToBinary (text : list Z) :
  Forall (fun c => (0 <= c < 256)%Z) text ->
  binaryToText (textToBinary text) = text.
Proof.
  intros Hbytes.
  rewrite <- (take_ge (textToBinary text) (8 * length text))
    by (rewrite textToBinary_length by exact Hbytes; lia).
  rewrite binaryToText_take by exact Hbytes. apply take_ge. lia.
Qed.

(** X7. [binaryToText] undoes [textToBinary] exactly on the texts whose
    code units are all below 256. *)
Theorem text_binary_round_trip (text : list Z) :
  binaryToText (textToBinary text) = text
  <-> Forall (fun c => (0 <= c < 256)%Z) text.
Proof.
  split.
  - intros E. rewrite <- E. apply binaryToText_bytes.
  - apply binaryToText_textToBinary.
Qed.

Lemma posDigits_at_least (p : positive) (acc : list bool) (n : nat) :
  (2 ^ Z.of_nat n <= Zpos p)%Z ->
  n + length acc < length (JS.posDigits p acc).
Proof.
  revert acc n.
  assert (forall q acc, length acc < length (JS.posDigits q acc)) as Hgrow.
  { induction q as [q IH | q IH |]; intros acc; simpl.
    - specialize (IH (true :: acc)). simpl in IH. lia.
    - specialize (IH (false :: acc)). simpl in IH. lia.
    - lia. }
  induction p as [q IH | q IH |]; intros acc n Hn.
  - destruct n as [| n]; [rewrite Nat.add_0_l; apply Hgrow |].
    cbn [JS.posDigits].
    rewrite Nat2Z.inj_succ, Z.pow_succ_r in Hn by lia.
    specialize (IH (true :: acc) n ltac:(lia)). simpl in IH. lia.
  - destruct n as [| n]; [rewrite Nat.add_0_l; apply Hgrow |].
    cbn [JS.posDigits].
    rewrite Nat2Z.inj_succ, Z.pow_succ_r in Hn by lia.
    specialize (IH (false :: acc) n ltac:(lia)). simpl in IH. lia.
  - destruct n as [| n]; [simpl; lia |].
    rewrite Nat2Z.inj_succ, Z.pow_succ_r in Hn by lia.
    assert (0 < 2 ^ Z.of_nat n)%Z by (apply Z.pow_pos_nonneg; lia). lia.
Qed.

Lemma toString2_length (n : Z) (width : nat) :
  (0 <= n)%Z -> 0 < width ->
  length (JS.toString2 n) <= width <-> (n < 2 ^ Z.of_nat width)%Z.
Proof.
  intros Hn Hw. split.
  - intros Hlen.
    destruct (Z.lt_ge_cases n (2 ^ Z.of_nat width)) as [H | H]; [exact H |].
    destruct n as [| p | p]; [| | lia].
    + assert (0 < 2 ^ Z.of_nat width)%Z by (apply Z.pow_pos_nonneg; lia). lia.
    + pose proof (posDigits_at_least p [] width H) as Hlow.
      simpl in *. lia.
  - intros Hlt. destruct n as [| p | p]; [simpl; lia | | lia].
    pose proof (posDigits_length p [] width Hlt). simpl in *. lia.
Qed.

(** X8. [numberToBinary] never loses the number: its digits spell the
    number again, for every number that is not negative.  It has exactly
    [bitLength] digits when the number is below [2 ^ bitLength], and more
    digits (it does not cut) when the number is not. *)
Theorem numberToBinary_width (number : Z) (bitLength : nat) :
  (0 <= number)%Z -> 0 < bitLength ->
  JS.parseInt2 (numberToBinary number bitLength) = number
  /\ (length (numberToBinary number bitLength) = bitLength
      <-> (number < 2 ^ Z.of_nat bitLength)%Z)
  /\ bitLength <= length (numberToBinary number bitLength).
Proof.
  intros Hn Hw. split; [apply parse_numberToBinary; exact Hn |].
  pose proof (toString2_length number bitLength Hn Hw) as Hiff.
  unfold numberToBinary, JS.padStart.
  rewrite length_app, length_replicate. split; [| lia].
  split; intros H; [apply Hiff | apply Hiff in H]; lia.
Qed.

(** X9. [textToBinary] gives at least 8 digits for each code unit, and
    exactly 8 for each exactly when all code units are below 256. *)
Theorem textToBinary_digits (text : list Z) :
  Forall (fun c => (0 <= c)%Z) text ->
  8 * length text <= length (textToBinary text)
  /\ (length (textToBinary text) = 8 * length text
      <-> Forall (fun c => (c < 256)%Z) text).
Proof.
  induction 1 as [| c text Hc Hrest [IHle IHiff]].
  - split; [simpl; lia |]. split; [constructor | reflexivity].
  - unfold textToBinary in *. cbn [flat_map]. rewrite length_app.
    pose proof (toString2_length c 8 Hc ltac:(lia)) as Hw.
    change (2 ^ Z.of_nat 8)%Z with 256%Z in Hw.
    unfold JS.padStart in *. rewrite length_app, length_replicate.
    cbn [length]. split; [lia |]. split.
    + intros E. constructor; [apply Hw; lia | apply IHiff; lia].
    + intros Hall. inversion Hall as [| ? ? Hc8 Hall']; subst.
      apply Hw in Hc8. apply IHiff in Hall'. lia.
Qed.

(** ** The capacity a caller is shown and the capacity hideData enforces *)

Lemma calculateMaxTextLength_div (width height : Z) :
  calculateMaxTextLength width height = (width * height * 3 / 8)%Z.
Proof.
  transitivity (width * height * 3 * 1 / 8)%Z; [reflexivity | f_equal; lia].
Qed.

(** X10. For an image of [width] x [height] pixels [calculateMaxTextLength]
    is the maximum that [hideData] computes from the pixel buffer; but
    [hideData] compares it with the framed text, so without a password
    it rejects exactly the texts longer than that maximum less 11. *)
Theorem shown_capacity_counts_the_frame {crypto : CryptoJS}
    (width height : nat) (data text : list Z) :
  length data = 4 * (width * height) ->
  maxDataSizeOf data
  = calculateMaxTextLength (Z.of_nat width) (Z.of_nat height)
  /\ ((exists e, hideData data text [] = Rejected e)
      <-> (calculateMaxTextLength (Z.of_nat width) (Z.of_nat height) - 11
           < Z.of_nat (length text))%Z).
Proof.
  intros Hlen.
  assert (maxDataSizeOf data
          = calculateMaxTextLength (Z.of_nat width) (Z.of_nat height)) as Hmax.
  { rewrite maxDataSize_div, calculateMaxTextLength_div, Hlen.
    Z.div_mod_to_equations. nia. }
  split; [exact Hmax |].
  pose proof (dataToHide_length text []) as Hl.
  change (truthy [] && (0 <? length (@nil Z))) with false in Hl.
  rewrite <- Hmax. split.
  - intros [e He]. apply hideData_rejected_iff in He as [Hlt _]. lia.
  - intros Hlt. eexists. apply hideData_rejected_iff. split; [lia | reflexivity].
Qed.

(** ** The helpers of the older copy *)

Lemma attached_repeatZeros (count : Z) (width used : nat) :
  count = (Z.of_nat width - Z.of_nat used)%Z ->
  Attached.repeatZeros count
  = if used <=? width then Some (replicate (width - used) false) else None.
Proof.
  intros ->. unfold Attached.repeatZeros.
  destruct (Z.ltb_spec (Z.of_nat width - Z.of_nat used) 0);
    destruct (Nat.leb_spec used width); try lia; [reflexivity |].
  do 2 f_equal. lia.
Qed.

Lemma attached_textToBinary_spec (text : list Z) :
  Forall (fun c => (0 <= c)%Z) text ->
  Attached.textToBinary text
  = if forallb (fun c => (c <? 256)%Z) text
    then Some (textToBinary text) else None.
Proof.
  induction 1 as [| c text Hc _ IH]; [reflexivity |].
  cbn [Attached.textToBinary forallb]. rewrite IH.
  rewrite (attached_repeatZeros _ 8 (length (JS.toString2 c))) by reflexivity.
  pose proof (toString2_length c 8 Hc ltac:(lia)) as Hiff.
  destruct (Nat.leb_spec (length (JS.toString2 c)) 8) as [Hle | Hgt];
    destruct (Z.ltb_spec c 256) as [Hlt | Hge]; cbn [andb].
  - destruct (forallb (fun c0 => (c0 <? 256)%Z) text); reflexivity.
  - exfalso. apply Hiff in Hle. simpl in Hle. lia.
  - exfalso. assert (length (JS.toString2 c) <= 8) by (apply Hiff; simpl; lia).
    lia.
  - reflexivity.
Qed.

Lemma attached_numberToBinary_spec (num : Z) (bitLength : nat) :
  (0 <= num)%Z -> 0 < bitLength ->
  Attached.numberToBinary num bitLength
  = if (num <? 2 ^ Z.of_nat bitLength)%Z
    then Some (numberToBinary num bitLength) else None.
Proof.
  intros Hn Hw. unfold Attached.numberToBinary. cbv zeta.
  rewrite (attached_repeatZeros _ bitLength (length (JS.toString2 num)))
    by reflexivity.
  pose proof (toString2_length num bitLength Hn Hw) as Hiff.
  destruct (Nat.leb_spec (length (JS.toString2 num)) bitLength) as [Hle | Hgt];
    destruct (Z.ltb_spec num (2 ^ Z.of_nat bitLength)) as [Hlt | Hge].
  - reflexivity.
  - exfalso. apply Hiff in Hle. lia.
  - exfalso. apply Hiff in Hlt. lia.
  - reflexivity.
Qed.

Lemma attached_hideData_spec {crypto : CryptoJS}
    (data text password : list Z) :
  Forall (fun c => (0 <= c)%Z) (dataToHideOf text password) ->
  (Z.of_nat (length (dataToHideOf text password)) < 2 ^ 32)%Z ->
  Attached.hideData data text password
  = match hideData data text password with
    | Rejected e => inr (Attached.Failed e)
    | Resolved st =>
        if forallb (fun c => (c <? 256)%Z) (dataToHideOf text password)
        then inl st else inr Attached.InvalidCount
    end.
Proof.
  intros Hunits H32. unfold Attached.hideData, hideData. cbv zeta.
  destruct (maxDataSizeOf data <? Z.of_nat (length (dataToHideOf text password)))%Z;
    [reflexivity |].
  rewrite attached_textToBinary_spec by exact Hunits.
  destruct (forallb (fun c => (c <? 256)%Z) (dataToHideOf text password));
    [| reflexivity].
  rewrite attached_numberToBinary_spec by lia.
  assert ((Z.of_nat (length (dataToHideOf text password)) <? 2 ^ Z.of_nat 32)%Z
          = true) as -> by (apply Z.ltb_lt; exact H32).
  reflexivity.
Qed.

(** X11. The older copy's [hideData] does what the newer one does, except
    that a framed text with a code unit of 256 or more, once past the
    capacity check, makes it throw the RangeError of ['0'.repeat]; the
    newer copy resolves for such a text. *)
Theorem attached_hideData_agreement {crypto : CryptoJS}
    (data text password : list Z) :
  Forall (fun c => (0 <= c)%Z) (dataToHideOf text password) ->
  (Z.of_nat (length (dataToHideOf text password)) < 2 ^ 32)%Z ->
  Attached.hideData data text password
  = match hideData data text password with
    | Rejected e => inr (Attached.Failed e)
    | Resolved st =>
        if forallb (fun c => (c <? 256)%Z) (dataToHideOf text password)
        then inl st else inr Attached.InvalidCount
    end.
Proof. apply attached_hideData_spec. Qed.

(** X12. In the older copy the shown maximum leaves room for the frame
    and the header: a text of 8-bit chars no longer than its
    [calculateMaxTextLength] is accepted by its [hideData], and every
    payload bit of the framed text has a byte in the buffer. *)
Theorem attached_shown_capacity_is_safe {crypto : CryptoJS}
    (width height : nat) (data text : list Z) :
  length data = 4 * (width * height) ->
  Forall (fun c => (0 <= c < 256)%Z) text ->
  (Z.of_nat (length text)
   <= Attached.calculateMaxTextLength (Z.of_nat width) (Z.of_nat height))%Z ->
  (Z.of_nat (length (dataToHideOf text [])) < 2 ^ 32)%Z ->
  exists st,
    Attached.hideData data text [] = inl st
    /\ hideData data text [] = Resolved st
    /\ forall i, i < length (textToBinary (dataToHideOf text [])) ->
                 addr i < length data.
Proof.
  intros Hlen Hbytes Hmax H32.
  destruct (framed_bytes text Hbytes) as [_ Hframed].
  pose proof (dataToHide_length text []) as Hl.
  change (truthy [] && (0 <? length (@nil Z))) with false in Hl.
  unfold Attached.calculateMaxTextLength in Hmax.
  fold (calculateMaxTextLength (Z.of_nat width) (Z.of_nat height)) in Hmax.
  rewrite calculateMaxTextLength_div in Hmax.
  assert (forallb (fun c => (c <? 256)%Z) (dataToHideOf text []) = true) as Hall.
  { apply forallb_forall. intros c Hc. apply Z.ltb_lt.
    rewrite Forall_forall in Hframed. apply list_elem_of_In in Hc.
    apply Hframed in Hc. lia. }
  rewrite attached_hideData_spec;
    [| eapply Forall_impl; [exact Hframed | simpl; intros; lia] | exact H32].
  destruct (hideData data text []) as [st | e] eqn:E.
  - exists st. rewrite Hall. split; [reflexivity |]. split; [reflexivity |].
    intros i Hi. rewrite textToBinary_length in Hi by exact Hframed.
    rewrite Hlen. apply addr_in_range.
    revert Hmax Hi Hl. generalize (length (dataToHideOf text [])).
    intros L Hmax Hi Hl. Z.div_mod_to_equations. nia.
  - exfalso. apply hideData_rejected_iff in E as [E _].
    rewrite maxDataSize_div, Hlen in E.
    revert Hmax E Hl. generalize (length (dataToHideOf text [])).
    intros L Hmax E Hl. Z.div_mod_to_equations. nia.
Qed.

(** ** What embedding does to the samples *)

Lemma high_bits_of_byte (x k : Z) :
  (0 <= x < 256)%Z -> (8 <= k)%Z -> Z.testbit x k = false.
Proof.
  intros Hx Hk. destruct (Z.eq_dec x 0%Z) as [-> | Hne]; [apply Z.bits_0 |].
  apply Z.bits_above_log2; [lia |].
  assert (Z.log2 x < 8)%Z by (apply Z.log2_lt_pow2; lia). lia.
Qed.

(** On a byte, [(x & 0xFE) | bit] is [x] with its last binary digit
    replaced. *)
Lemma setLSB_value (x : Z) (b : bool) :
  (0 <= x < 256)%Z -> setLSB x b = (2 * (x / 2) + Z.b2z b)%Z.
Proof.
  intros Hx. apply Z.bits_inj'. intros k Hk.
  destruct (Z.eq_dec k 0%Z) as [-> | Hne].
  - rewrite setLSB_bit0, Z.testbit_0_r. reflexivity.
  - replace k with (Z.succ (k - 1)%Z) at 2 by lia.
    rewrite Z.testbit_succ_r by lia.
    rewrite Z.div2_bits by lia.
    replace (Z.succ (k - 1)%Z) with k by lia.
    destruct (Z.le_gt_cases k 7%Z) as [Hlow | Hhigh].
    + apply setLSB_high. lia.
    + unfold setLSB. rewrite Z.lor_spec, Z.land_spec.
      rewrite high_bits_of_byte by lia. rewrite digit_high by lia.
      reflexivity.
Qed.

Lemma setLSB_twice (x : Z) (a b : bool) : setLSB (setLSB x a) b = setLSB x b.
Proof.
  unfold setLSB. f_equal. apply Z.bits_inj'. intros k Hk.
  rewrite !Z.land_spec, Z.lor_spec, Z.land_spec.
  destruct (Z.eq_dec k 0%Z) as [-> | Hne].
  - replace (Z.testbit 254 0) with false by reflexivity.
    rewrite !andb_false_r. reflexivity.
  - rewrite digit_high by lia. rewrite orb_false_r.
    destruct (Z.testbit x k), (Z.testbit 254 k); reflexivity.
Qed.

(** Each byte of the result is the byte of the carrier, or that byte with
    bit 0 rewritten. *)
Lemma resolved_byte_cases {crypto : CryptoJS}
    (data text password : list Z) (st : store) (j : nat) :
  hideData data text password = Resolved st ->
  rd (buf st) j = rd data j
  \/ exists b, j < length data /\ rd (buf st) j = setLSB (rd data j) b.
Proof.
  intros H. pose proof (resolved_big_enough _ _ _ _ H) as Hbig.
  destruct (Nat.lt_ge_cases j 32) as [Hj | Hj].
  - right. eexists. split; [lia |].
    exact (resolved_header_byte _ _ _ _ _ H Hj).
  - destruct (Nat.lt_ge_cases j (length data)) as [Hin | Hout].
    + destruct (addr_hit_dec
                  (length (textToBinary (dataToHideOf text password))) j)
        as [[i [Hi E]] | Hno].
      * right. subst j. eexists. split; [exact Hin |].
        exact (resolved_payload_byte _ _ _ _ _ H Hi Hin).
      * left. exact (resolved_other_byte _ _ _ _ _ H Hj Hno).
    + left. rewrite !rd_past_end; [reflexivity | exact Hout |].
      rewrite (resolved_length _ _ _ _ H). exact Hout.
Qed.

(** X13. Embedding keeps the size of the buffer and changes no sample by
    more than one: every byte of the result is a byte again, has the same
    upper seven bits as before, and differs from the byte of the carrier
    by at most 1. *)
Theorem embedding_is_gentle {crypto : CryptoJS}
    (data text password : list Z) (st : store) :
  Forall (fun x => (0 <= x < 256)%Z) data ->
  hideData data text password = Resolved st ->
  length (buf st) = length data
  /\ forall j x, data !! j = Some x ->
       exists y, buf st !! j = Some y
                 /\ (0 <= y < 256)%Z /\ (y / 2 = x / 2)%Z /\ (Z.abs (y - x) <= 1)%Z.
Proof.
  intros Hbytes H. pose proof (resolved_length _ _ _ _ H) as Hlen.
  split; [exact Hlen |]. intros j x Hx.
  assert (0 <= x < 256)%Z as Hrange
    by (rewrite Forall_forall in Hbytes; apply Hbytes;
        apply list_elem_of_lookup; eauto).
  pose proof (lookup_lt_Some _ _ _ Hx) as Hj.
  destruct (lookup_lt_is_Some_2 (buf st) j ltac:(lia)) as [y Hy].
  exists y. split; [exact Hy |].
  pose proof (rd_lookup _ _ _ Hx) as Rx. pose proof (rd_lookup _ _ _ Hy) as Ry.
  destruct (resolved_byte_cases data text password st j H) as [E | [b [_ E]]];
    rewrite Rx, Ry in E; clear Rx Ry Hy.
  - subst y. split; [exact Hrange |]. split; [reflexivity | lia].
  - rewrite setLSB_value in E by exact Hrange. subst y.
    destruct b; cbn [Z.b2z]; Z.div_mod_to_equations; lia.
Qed.

(** X14. The last embedding wins: embedding a second text into the result
    of a first embedding gives the very store that embedding the second
    text into the carrier gives, as long as the second framed text has at
    least as many digits as the first. *)
Theorem last_embedding_wins {crypto : CryptoJS}
    (data text1 password1 text2 password2 : list Z) (st1 st2 : store) :
  hideData data text1 password1 = Resolved st1 ->
  hideData data text2 password2 = Resolved st2 ->
  length (textToBinary (dataToHideOf text1 password1))
  <= length (textToBinary (dataToHideOf text2 password2)) ->
  hideData (buf st1) text2 password2 = Resolved st2.
Proof.
  intros H1 H2 Hle.
  pose proof (resolved_length _ _ _ _ H1) as Hlen1.
  pose proof (resolved_length _ _ _ _ H2) as Hlen2.
  destruct (hideData (buf st1) text2 password2) as [st |  e] eqn:H12.
  - pose proof (resolved_length _ _ _ _ H12) as Hlen.
    f_equal. destruct st as [b w], st2 as [b2 w2]. f_equal.
    + cbn [buf] in *. apply buffer_ext; [lia |]. intros j.
      destruct (Nat.lt_ge_cases j 32) as [Hj | Hj].
      * pose proof (resolved_header_byte _ _ _ _ _ H12 Hj) as E12.
        pose proof (resolved_header_byte _ _ _ _ _ H2 Hj) as E2.
        pose proof (resolved_header_byte _ _ _ _ _ H1 Hj) as E1.
        cbn [buf] in *. rewrite E12, E2, E1. apply setLSB_twice.
      * destruct (Nat.lt_ge_cases j (length data)) as [Hin | Hout];
          [| rewrite !rd_past_end by lia; reflexivity].
        destruct (addr_hit_dec
                    (length (textToBinary (dataToHideOf text2 password2))) j)
          as [[i [Hi E]] | Hno].
        -- subst j.
           pose proof (resolved_payload_byte _ _ _ _ _ H12 Hi ltac:(lia)) as E12.
           pose proof (resolved_payload_byte _ _ _ _ _ H2 Hi Hin) as E2.
           cbn [buf] in *. rewrite E12, E2.
           destruct (resolved_byte_cases _ _ _ _ (addr i) H1) as [E | [b1 [_ E]]];
             rewrite E; [reflexivity | apply setLSB_twice].
        -- pose proof (resolved_other_byte _ _ _ _ _ H12 Hj Hno) as E12.
           pose proof (resolved_other_byte _ _ _ _ _ H2 Hj Hno) as E2.
           cbn [buf] in *. rewrite E12, E2.
           apply (resolved_other_byte _ _ _ _ _ H1 Hj).
           intros i Hi. apply Hno. lia.
    + pose proof (resolved_writes _ _ _ _ H12) as W12.
      pose proof (resolved_writes _ _ _ _ H2) as W2.
      cbn [writes] in *. rewrite W12, W2, Hlen1. reflexivity.
  - exfalso. apply hideData_rejected_iff in H12 as [E _].
    apply hideData_inv in H2 as [Hcap _].
    rewrite !maxDataSize_div, ?Hlen1 in *. lia.
Qed.

(** ** The end marker in a text *)

Lemma search_offset (p s : list Z) (i : nat) :
  JS.search p s i = option_map (fun k => i + k) (JS.search p s 0).
Proof.
  revert i. induction s as [| c s IH]; intros i; cbn [JS.search].
  - destruct (JS.startsWith p []); simpl; [f_equal; lia | reflexivity].
  - destruct (JS.startsWith p (c :: s)); [simpl; f_equal; lia |].
    rewrite (IH (S i)), (IH 1).
    destruct (JS.search p s 0); simpl; [f_equal; lia | reflexivity].
Qed.

Lemma includes_tail (p s : list Z) (c : Z) :
  JS.includes p (c :: s) = false ->
  JS.startsWith p (c :: s) = false /\ JS.includes p s = false.
Proof.
  unfold JS.includes. cbn [JS.search].
  destruct (JS.startsWith p (c :: s)); [discriminate |].
  rewrite search_offset. destruct (JS.search p s 0); [discriminate | auto].
Qed.

Lemma startsWith_head_ne (a b : Z) (p s : list Z) :
  a <> b -> JS.startsWith (a :: p) (b :: s) = false.
Proof. intros H. simpl. apply Z.eqb_neq in H. rewrite H. reflexivity. Qed.

Lemma startsWith_within (p s r : list Z) :
  length p <= length s -> JS.startsWith p (s ++ r) = JS.startsWith p s.
Proof.
  revert s. induction p as [| a p IH]; intros s Hlen; [reflexivity |].
  destruct s as [| b s]; [simpl in Hlen; lia |].
  simpl. rewrite IH by (simpl in Hlen; lia). reflexivity.
Qed.

(** The end marker does not overlap itself: after one to six other chars
    it cannot start before its own start. *)
Lemma marker_has_no_border (pre : list Z) :
  1 <= length pre <= 6 ->
  JS.startsWith (lit "<<EOF>>") (pre ++ lit "<<EOF>>") = false.
Proof.
  intros Hlen. apply not_true_iff_false. intros Hs.
  apply startsWith_app in Hs as [r E].
  destruct pre as [| c1 [| c2 [| c3 [| c4 [| c5 [| c6 [| c7 rest]]]]]]];
    simpl in Hlen; try lia; vm_compute in E; congruence.
Qed.

(** In a text without the end marker, followed by the end marker, the
    marker is found at the end of the text. *)
Lemma marker_found_at_end (text : list Z) :
  JS.includes (lit "<<EOF>>") text = false ->
  JS.search (lit "<<EOF>>") (text ++ lit "<<EOF>>") 0 = Some (length text).
Proof.
  induction text as [| c text IH]; intros Hno; [reflexivity |].
  apply includes_tail in Hno as [Hhead Hrest].
  change ((c :: text) ++ lit "<<EOF>>") with (c :: (text ++ lit "<<EOF>>")).
  cbn [JS.search].
  assert (JS.startsWith (lit "<<EOF>>") (c :: text ++ lit "<<EOF>>") = false)
    as ->.
  { destruct (Nat.le_gt_cases (length (c :: text)) 6) as [Hshort | Hlong].
    - apply (marker_has_no_border (c :: text)). simpl in *. lia.
    - change (c :: text ++ lit "<<EOF>>") with ((c :: text) ++ lit "<<EOF>>").
      rewrite startsWith_within; [exact Hhead |].
      change (length (lit "<<EOF>>")) with 7. lia. }
  rewrite search_offset, (IH Hrest). reflexivity.
Qed.

Lemma tagged_text_has_no_marker (text : list Z) :
  JS.includes (lit "<<EOF>>") text = false ->
  JS.includes (lit "<<EOF>>") (lit "TXT:" ++ text) = false.
Proof.
  intros Hno. unfold JS.includes in *.
  change (lit "TXT:" ++ text) with (84 :: 88 :: 84 :: 58 :: text)%Z.
  change (lit "<<EOF>>") with (60 :: lit "<EOF>>")%Z in *.
  cbn [JS.search]. rewrite !startsWith_head_ne by lia.
  rewrite search_offset. destruct (JS.search (60%Z :: lit "<EOF>>") text 0);
    [discriminate | reflexivity].
Qed.

(** A framed plain text is handled to the text itself. *)
Lemma framed_text_is_recovered {crypto : CryptoJS} (text password : list Z) :
  JS.includes (lit "<<EOF>>") text = false ->
  processExtracted (lit "TXT:" ++ text ++ lit "<<EOF>>") password
  = Resolved text.
Proof.
  intros Hno.
  pose proof (marker_found_at_end _ (tagged_text_has_no_marker text Hno)) as Hat.
  rewrite <- app_assoc in Hat.
  assert (JS.includes (lit "<<EOF>>") (lit "TXT:" ++ text ++ lit "<<EOF>>")
          = true) as Hin by (unfold JS.includes; rewrite Hat; reflexivity).
  rewrite processExtracted_marked by (left; exact Hin).
  unfold cleanTextOf, JS.splitHead. rewrite Hin, Hat.
  rewrite app_assoc, take_app_length. reflexivity.
Qed.

(** ** What extractData decodes *)

Section Decoding.
Context {crypto : CryptoJS}.

(** X15. The layout [extractData] reads: when the header holds the length
    of the framed text 'TXT:' + text + '<<EOF>>' (text of 8-bit chars
    without the end marker in it) and bit 0 of the colour bytes from
    byte 32 on spells the framed text, [extractData] resolves with the
    text, whatever the password. *)
Theorem aligned_image_decodes (data text password : list Z) (fuel : nat) :
  Forall (fun c => (0 <= c < 256)%Z) text ->
  JS.includes (lit "<<EOF>>") text = false ->
  readHeader data = Z.of_nat (length (lit "TXT:" ++ text ++ lit "<<EOF>>")) ->
  4 * length (lit "TXT:" ++ text ++ lit "<<EOF>>") <= length data ->
  map (fun j => Z.testbit (rd data j) 0)
    (take (8 * length (lit "TXT:" ++ text ++ lit "<<EOF>>"))
       (colourIndices data 32))
  = textToBinary (lit "TXT:" ++ text ++ lit "<<EOF>>") ->
  length data - 32 < fuel ->
  extractData fuel data password = Some (Resolved text).
Proof.
  intros Hbytes Hno Hhead Hvalid Hbits Hfuel.
  destruct (framed_bytes (crypto := crypto) text Hbytes) as [Hframe Hframed].
  rewrite Hframe in Hframed.
  set (framed := lit "TXT:" ++ text ++ lit "<<EOF>>") in *.
  assert (11 <= length framed) as H11
    by (unfold framed; rewrite !length_app;
        change (length (lit "TXT:")) with 4;
        change (length (lit "<<EOF>>")) with 7; lia).
  pose proof (textToBinary_length framed Hframed) as Hlen.
  assert (8 * length framed <= length (colourIndices data 32)) as Henough.
  { apply (f_equal length) in Hbits.
    rewrite length_map, length_take, Hlen in Hbits. lia. }
  apply (extractData_more_fuel (S (length data - 32))); [| lia].
  rewrite extractData_valid.
  - rewrite Hhead. rewrite collectBits_enough; [| reflexivity | lia].
    replace (Z.to_nat (Z.of_nat (length framed) * 8 - 0))
      with (8 * length framed) by lia.
    rewrite Hbits, app_nil_l.
    rewrite (binaryToText_textToBinary framed Hframed).
    unfold framed. rewrite framed_text_is_recovered by exact Hno.
    reflexivity.
  - rewrite Hhead. intros [Hbad | Hbad]; [lia |].
    apply gtQ_spec in Hbad. rewrite gtQ_quarter in Hbad.
    apply Z.ltb_lt in Hbad. lia.
Qed.
End Decoding.

(** ** When extraction settles *)

Lemma alpha_test (k r : nat) :
  ((4 * k + r + 1) mod 4 =? 0) = ((r + 1) mod 4 =? 0).
Proof.
  replace (4 * k + r + 1) with (r + 1 + k * 4) by lia.
  rewrite Nat.Div0.mod_add. reflexivity.
Qed.

Lemma colour_step_in_pixel (data : list Z) (k r : nat) :
  4 * k + r < length data -> r < 4 ->
  colourIndices data (4 * k + r)
  = if r =? 3 then colourIndices data (4 * k + (r + 1))
    else (4 * k + r) :: colourIndices data (4 * k + (r + 1)).
Proof.
  intros Hin Hr. rewrite colourIndices_step by exact Hin.
  rewrite alpha_test.
  replace (S (4 * k + r)) with (4 * k + (r + 1)) by lia.
  destruct r as [| [| [| [| r]]]]; try reflexivity. lia.
Qed.

(** An image of [pixels] pixels has three colour bytes for each pixel
    from pixel [k] on. *)
Lemma colour_count (data : list Z) (pixels : nat) :
  length data = 4 * pixels ->
  forall n k, n = pixels - k ->
    length (colourIndices data (4 * k)) = 3 * (pixels - k).
Proof.
  intros Hlen n. induction n as [| n IH]; intros k Hn.
  - rewrite colourIndices_end by lia. simpl. lia.
  - replace (4 * k) with (4 * k + 0) by lia.
    rewrite (colour_step_in_pixel data k 0) by lia. cbn [Nat.eqb Nat.add].
    rewrite (colour_step_in_pixel data k 1) by lia. cbn [Nat.eqb Nat.add].
    rewrite (colour_step_in_pixel data k 2) by lia. cbn [Nat.eqb Nat.add].
    rewrite (colour_step_in_pixel data k 3) by lia.
    cbn [Nat.eqb Nat.add length].
    replace (4 * k + 4) with (4 * S k) by lia.
    rewrite IH by lia. lia.
Qed.

(** X16. When [extractData] settles at all.  For an image of [pixels]
    pixels whose header value [L] passes the length check
    ([0 < L <= pixels]), some amount of fuel lets [extractData] settle
    exactly when [8 * L <= 3 * (pixels - 8)]; for every larger [L] that the
    check lets through, the collection loop runs for ever. *)
Theorem extraction_settles_iff {crypto : CryptoJS}
    (data password : list Z) (pixels : nat) :
  length data = 4 * pixels ->
  (0 < readHeader data <= Z.of_nat pixels)%Z ->
  (exists fuel r, extractData fuel data password = Some r)
  <-> (readHeader data * 8 <= Z.of_nat (3 * (pixels - 8)))%Z.
Proof.
  intros Hlen Hvalid.
  assert (length (colourIndices data 32) = 3 * (pixels - 8)) as Hcount.
  { destruct (Nat.le_gt_cases 8 pixels) as [Hbig | Hsmall].
    - exact (colour_count data pixels Hlen (pixels - 8) 8 eq_refl).
    - rewrite colourIndices_end by lia. cbn [length]. lia. }
  assert (forall fuel,
            extractData fuel data password
            = match collectBits fuel data (readHeader data * 8) 32 0%Z [] with
              | None => None
              | Some extractedBinary =>
                  Some (processExtracted (binaryToText extractedBinary) password)
              end) as Hrun.
  { intros fuel. apply extractData_valid. rewrite Hlen.
    intros [Hbad | Hbad]; [lia |].
    apply gtQ_spec in Hbad. rewrite gtQ_quarter in Hbad.
    apply Z.ltb_lt in Hbad. lia. }
  rewrite <- Hcount. split.
  - intros [fuel [r Hr]]. rewrite Hrun in Hr.
    destruct (Z.le_gt_cases (readHeader data * 8)
                (Z.of_nat (length (colourIndices data 32)))) as [Hle | Hgt];
      [exact Hle |].
    rewrite collectBits_too_few in Hr by lia. discriminate Hr.
  - intros Hle. exists (S (length data - 32)). eexists.
    rewrite Hrun, collectBits_enough; [reflexivity | reflexivity | lia].
Qed.

(** ** What the round trip returns *)

Lemma search_cons (p s : list Z) (c : Z) (i : nat) :
  JS.search p (c :: s) i
  = if JS.startsWith p (c :: s) then Some i else JS.search p s (S i).
Proof. reflexivity. Qed.

(** A marker of two chars or more whose first char is none of 'T', 'X',
    ':' and whose second char is not 'T' cannot start in the carrier
    char or in the tag 'TXT:' in front of a text. *)
Lemma search_past_tag (a b c0 : Z) (q rest : list Z) :
  a <> 84%Z -> a <> 88%Z -> a <> 58%Z -> b <> 84%Z ->
  JS.search (a :: b :: q) (c0 :: lit "TXT:" ++ rest) 0
  = option_map (fun k => 5 + k) (JS.search (a :: b :: q) rest 0).
Proof.
  intros HT HX HC Hb.
  change (c0 :: lit "TXT:" ++ rest)
    with (c0 :: 84 :: 88 :: 84 :: 58 :: rest)%Z.
  rewrite search_cons.
  assert (JS.startsWith (a :: b :: q) (c0 :: 84 :: 88 :: 84 :: 58 :: rest)%Z
          = false) as ->.
  { cbn [JS.startsWith]. apply Z.eqb_neq in Hb. rewrite Hb.
    cbn [andb]. apply andb_false_r. }
  rewrite !search_cons, !startsWith_head_ne by assumption.
  apply search_offset.
Qed.

Lemma search_EOF_past_tag (c0 : Z) (rest : list Z) :
  JS.search (lit "<<EOF>>") (c0 :: lit "TXT:" ++ rest) 0
  = option_map (fun k => 5 + k) (JS.search (lit "<<EOF>>") rest 0).
Proof. apply (search_past_tag 60 60); lia. Qed.

Lemma search_ENC_past_tag (c0 : Z) (rest : list Z) :
  JS.search (lit "ENC:") (c0 :: lit "TXT:" ++ rest) 0
  = option_map (fun k => 5 + k) (JS.search (lit "ENC:") rest 0).
Proof. apply (search_past_tag 69 78); lia. Qed.

(** A marker that occurs neither in [text] nor in [q] nor across the
    border of the two does not occur in [text ++ q]. *)
Lemma includes_app_false (p text q : list Z) :
  JS.includes p text = false ->
  JS.includes p q = false ->
  (forall pre, 1 <= length pre < length p ->
     JS.startsWith p (pre ++ q) = false) ->
  JS.includes p (text ++ q) = false.
Proof.
  intros Hno Hq Hborder.
  induction text as [| c text IH]; [exact Hq |].
  apply includes_tail in Hno as [Hhead Hrest].
  specialize (IH Hrest).
  unfold JS.includes in *.
  change ((c :: text) ++ q) with (c :: (text ++ q)).
  rewrite search_cons.
  assert (JS.startsWith p (c :: text ++ q) = false) as ->.
  { destruct (Nat.le_gt_cases (length p) (length (c :: text)))
      as [Hlong | Hshort].
    - change (c :: text ++ q) with ((c :: text) ++ q).
      rewrite startsWith_within by exact Hlong. exact Hhead.
    - apply (Hborder (c :: text)). simpl in *. lia. }
  rewrite search_offset.
  destruct (JS.search p (text ++ q) 0); [discriminate IH | reflexivity].
Qed.

(** The end marker without its last char brings no end marker and no
    'ENC:' tag into a text. *)
Lemma cut_marker_is_no_marker (text : list Z) :
  JS.includes (lit "<<EOF>>") text = false ->
  JS.includes (lit "<<EOF>>") (text ++ lit "<<EOF>") = false.
Proof.
  intros Hno. apply includes_app_false; [exact Hno | reflexivity |].
  intros pre Hlen. apply not_true_iff_false. intros Hs.
  apply startsWith_app in Hs as [r E].
  change (length (lit "<<EOF>>")) with 7 in Hlen.
  destruct pre as [| c1 [| c2 [| c3 [| c4 [| c5 [| c6 [| c7 rest]]]]]]];
    simpl in Hlen; try lia; vm_compute in E; congruence.
Qed.

Lemma cut_marker_is_no_ENC (text : list Z) :
  JS.includes (lit "ENC:") text = false ->
  JS.includes (lit "ENC:") (text ++ lit "<<EOF>") = false.
Proof.
  intros Hno. apply includes_app_false; [exact Hno | reflexivity |].
  intros pre Hlen. apply not_true_iff_false. intros Hs.
  apply startsWith_app in Hs as [r E].
  change (length (lit "ENC:")) with 4 in Hlen.
  destruct pre as [| c1 [| c2 [| c3 [| c4 rest]]]];
    simpl in Hlen; try lia; vm_compute in E; congruence.
Qed.

Lemma search_TXT_late (c0 : Z) (rest : list Z) :
  JS.search (lit "TXT:") (c0 :: lit "TXT:" ++ rest) 0 = Some 1.
Proof.
  change (c0 :: lit "TXT:" ++ rest)
    with (c0 :: 84 :: 88 :: 84 :: 58 :: rest)%Z.
  rewrite search_cons.
  change (JS.startsWith (lit "TXT:") (c0 :: 84 :: 88 :: 84 :: 58 :: rest)%Z)
    with ((84 =? c0)%Z && false).
  rewrite andb_false_r. reflexivity.
Qed.

(** The text handling on a text that comes one char late: without an end
    marker or an 'ENC:' tag in the text, the tag 'TXT:' is found at
    position 1 and the rest is handed on, with what is left of the end
    marker. *)
Lemma late_text_is_cut {crypto : CryptoJS} (c0 : Z) (text password : list Z) :
  JS.includes (lit "<<EOF>>") text = false ->
  JS.includes (lit "ENC:") text = false ->
  processExtracted (c0 :: lit "TXT:" ++ text ++ lit "<<EOF>") password
  = Resolved (text ++ lit "<<EOF>").
Proof.
  intros HnoEOF HnoENC.
  apply cut_marker_is_no_marker in HnoEOF.
  apply cut_marker_is_no_ENC in HnoENC.
  set (rest := text ++ lit "<<EOF>") in *.
  assert (JS.includes (lit "<<EOF>>") (c0 :: lit "TXT:" ++ rest) = false)
    as HE.
  { unfold JS.includes in *. rewrite search_EOF_past_tag.
    destruct (JS.search (lit "<<EOF>>") rest 0); [discriminate | reflexivity]. }
  assert (JS.includes (lit "ENC:") (c0 :: lit "TXT:" ++ rest) = false) as HC.
  { unfold JS.includes in *. rewrite search_ENC_past_tag.
    destruct (JS.search (lit "ENC:") rest 0); [discriminate | reflexivity]. }
  assert (JS.includes (lit "TXT:") (c0 :: lit "TXT:" ++ rest) = true) as HT
    by (unfold JS.includes; rewrite search_TXT_late; reflexivity).
  unfold processExtracted, cleanTextOf. rewrite HE, HT. cbn [negb orb andb].
  cbv zeta. unfold inferFormat.
  destruct (late_prefix_untagged c0 text (length text + 11)) as [H1 H2].
  rewrite take_ge in H1, H2 by (rewrite late_length; lia).
  fold rest in H1, H2. rewrite H1, H2.
  destruct (JS.includes (lit "ENC:")
              (JS.substringTo 20 (c0 :: lit "TXT:" ++ rest))) eqn:E20.
  { apply includes_take in E20. congruence. }
  pose proof (late_prefix_has_tag c0 text (length text + 11) 20
                ltac:(lia) ltac:(lia)) as H20.
  rewrite (take_ge (c0 :: _)) in H20 by (rewrite late_length; lia).
  fold rest in H20. unfold JS.substringTo. rewrite H20.
  unfold JS.indexOf. rewrite search_TXT_late. reflexivity.
Qed.

(** ** Reading an embedded image back *)

Lemma header_check_passes (data : list Z) :
  (0 < readHeader data)%Z ->
  (4 * readHeader data <= Z.of_nat (length data))%Z ->
  (readHeader data <=? 0)%Z
  || gtQ (readHeader data) (inject_Z (Z.of_nat (length data)) / 4)%Q = false.
Proof.
  intros Hpos Hfit. rewrite gtQ_quarter.
  apply orb_false_iff. split; [apply Z.leb_gt | apply Z.ltb_ge]; lia.
Qed.

(** What the collection loop of both copies gets from an image that
    [hideData] made: whole groups of eight bits that spell one carrier
    char and the framed text without its last char. *)
Lemma embedded_image_read {crypto : CryptoJS}
    (pixels : nat) (data text : list Z) (st : store) (fuel : nat) :
  length data = 4 * pixels ->
  Forall (fun c => (0 <= c < 256)%Z) text ->
  hideData data text [] = Resolved st ->
  32 + 8 * length (dataToHideOf text []) <= 3 * pixels ->
  (Z.of_nat (length (dataToHideOf text [])) < 2 ^ 32)%Z ->
  length data - 32 < fuel ->
  (readHeader (buf st) <=? 0)%Z
  || gtQ (readHeader (buf st)) (inject_Z (Z.of_nat (length (buf st))) / 4)%Q
  = false
  /\ exists c0 bits,
       collectBits fuel (buf st) (readHeader (buf st) * 8) 32 0%Z []
       = Some bits
       /\ length bits = 8 * length (dataToHideOf text [])
       /\ binaryToText bits = c0 :: lit "TXT:" ++ text ++ lit "<<EOF>".
Proof.
  intros Himage Hbytes Hres Hfit H32 Hfuel.
  destruct (embedded_facts pixels data text st Himage Hbytes Hres Hfit)
    as (H11 & Hbits & Hlen & _).
  pose proof (resolved_readHeader _ _ _ _ Hres H32) as Hhead.
  split; [apply header_check_passes; rewrite Hhead, ?Hlen, ?Himage; lia |].
  destruct (extracted_from_embedded pixels data text st Himage Hbytes Hres Hfit)
    as [c0 Hlate].
  pose proof (collected_from_embedded pixels data text st Himage Hbytes Hres Hfit)
    as Hcoll.
  rewrite Hcoll in Hlate. cbn [option_map] in Hlate.
  eexists c0, _. rewrite Hhead. split; [| split].
  - apply (collectBits_more_fuel (S (length (buf st) - 32)));
      [exact Hcoll | lia].
  - rewrite length_app, length_map, length_take, Hbits. cbn [length]. lia.
  - congruence.
Qed.

(** X17. What the round trip returns.  A text of 8-bit chars with
    neither the end marker nor the tag 'ENC:' in it is embedded without a
    password in an image buffer that has a byte for every bit; then
    [extractData], with any password, resolves with the text followed by
    '<<EOF>', the end marker without its last char. *)
Theorem roundtrip_returns_cut_marker {crypto : CryptoJS}
    (pixels fuel : nat) (data text password : list Z) (st : store) :
  length data = 4 * pixels ->
  Forall (fun c => (0 <= c < 256)%Z) text ->
  JS.includes (lit "<<EOF>>") text = false ->
  JS.includes (lit "ENC:") text = false ->
  hideData data text [] = Resolved st ->
  32 + 8 * length (dataToHideOf text []) <= 3 * pixels ->
  (Z.of_nat (length (dataToHideOf text [])) < 2 ^ 32)%Z ->
  length data - 32 < fuel ->
  extractData fuel (buf st) password
  = Some (Resolved (text ++ lit "<<EOF>")).
Proof.
  intros Himage Hbytes HnoEOF HnoENC Hres Hfit H32 Hfuel.
  destruct (embedded_image_read pixels data text st fuel
              Himage Hbytes Hres Hfit H32 Hfuel)
    as (Hvalid & c0 & bits & Hcoll & _ & Htext).
  unfold extractData. cbv zeta. rewrite Hvalid, Hcoll, Htext.
  rewrite late_text_is_cut by assumption. reflexivity.
Qed.

(** ** The older copy: decoding and the round trip *)

Lemma binaryToText_group (b0 b1 b2 b3 b4 b5 b6 b7 : bool) (rest : list bool) :
  binaryToText (b0 :: b1 :: b2 :: b3 :: b4 :: b5 :: b6 :: b7 :: rest)
  = JS.parseInt2 [b0; b1; b2; b3; b4; b5; b6; b7] :: binaryToText rest.
Proof. reflexivity. Qed.

Lemma attached_binaryToText_group
    (b0 b1 b2 b3 b4 b5 b6 b7 : bool) (rest : list bool) :
  Attached.binaryToText (b0 :: b1 :: b2 :: b3 :: b4 :: b5 :: b6 :: b7 :: rest)
  = JS.parseInt2 [b0; b1; b2; b3; b4; b5; b6; b7]
    :: Attached.binaryToText rest.
Proof. reflexivity. Qed.

(** The number of '0' digits that [padEnd] adds. *)
Lemma padding_of_group (n : nat) :
  (8 - (8 + n) mod 8) mod 8 = (8 - n mod 8) mod 8.
Proof.
  replace (8 + n) with (n + 1 * 8) by lia.
  rewrite Nat.Div0.mod_add. reflexivity.
Qed.

Lemma attached_binaryToText_padded (binary : list bool) :
  Attached.binaryToText binary
  = binaryToText
      (binary ++ replicate ((8 - length binary mod 8) mod 8) false).
Proof.
  remember (length binary) as n eqn:Hn.
  revert binary Hn. induction n as [n IH] using lt_wf_ind. intros binary Hn.
  destruct binary as [| b0 [| b1 [| b2 [| b3 [| b4 [| b5 [| b6 [| b7 rest]]]]]]]];
    subst n; try reflexivity.
  rewrite attached_binaryToText_group.
  change (length (b0 :: b1 :: b2 :: b3 :: b4 :: b5 :: b6 :: b7 :: rest))
    with (8 + length rest).
  rewrite padding_of_group.
  change ((b0 :: b1 :: b2 :: b3 :: b4 :: b5 :: b6 :: b7 :: rest)
          ++ replicate ((8 - length rest mod 8) mod 8) false)
    with (b0 :: b1 :: b2 :: b3 :: b4 :: b5 :: b6 :: b7
          :: (rest ++ replicate ((8 - length rest mod 8) mod 8) false)).
  rewrite binaryToText_group. f_equal.
  apply (IH (length rest)); [simpl; lia | reflexivity].
Qed.

Lemma binaryToText_count (binary : list bool) :
  length (binaryToText binary) = length binary / 8.
Proof.
  remember (length binary) as n eqn:Hn.
  revert binary Hn. induction n as [n IH] using lt_wf_ind. intros binary Hn.
  destruct binary as [| b0 [| b1 [| b2 [| b3 [| b4 [| b5 [| b6 [| b7 rest]]]]]]]];
    subst n; try reflexivity.
  rewrite binaryToText_group.
  change (length (b0 :: b1 :: b2 :: b3 :: b4 :: b5 :: b6 :: b7 :: rest))
    with (8 + length rest).
  cbn [length]. rewrite (IH (length rest) ltac:(simpl; lia) rest eq_refl).
  replace (8 + length rest) with (length rest + 1 * 8) by lia.
  rewrite Nat.div_add by lia. lia.
Qed.

Lemma attached_binaryToText_whole (binary : list bool) :
  length binary mod 8 = 0 ->
  Attached.binaryToText binary = binaryToText binary.
Proof.
  intros H. rewrite attached_binaryToText_padded, H.
  change ((8 - 0) mod 8) with 0. cbn [replicate]. rewrite app_nil_r.
  reflexivity.
Qed.

(** X18. The two copies of [binaryToText].  The older copy pads the
    digits with '0' up to a multiple of 8 and then decodes as the static
    copy does; so it gives a char for an incomplete last group too, one
    char for every started group of eight digits, where the static copy
    gives one char for every whole group and drops the rest. *)
Theorem attached_binaryToText_pads (binary : list bool) :
  Attached.binaryToText binary
  = binaryToText
      (binary ++ replicate ((8 - length binary mod 8) mod 8) false)
  /\ length (Attached.binaryToText binary) = (length binary + 7) / 8
  /\ length (binaryToText binary) = length binary / 8.
Proof.
  split; [apply attached_binaryToText_padded |].
  split; [| apply binaryToText_count].
  rewrite attached_binaryToText_padded, binaryToText_count.
  rewrite length_app, length_replicate.
  pose proof (Nat.div_mod_eq (length binary) 8) as E.
  pose proof (Nat.mod_upper_bound (length binary) 8 ltac:(lia)) as Hr.
  set (q := length binary / 8) in *. set (r := length binary mod 8) in *.
  rewrite E.
  destruct (Nat.eq_dec r 0) as [-> | Hne].
  - change ((8 - 0) mod 8) with 0.
    replace (8 * q + 0 + 0) with (0 + q * 8) by lia.
    replace (8 * q + 0 + 7) with (7 + q * 8) by lia.
    rewrite !Nat.div_add by lia. reflexivity.
  - rewrite (Nat.mod_small (8 - r)) by lia.
    replace (8 * q + r + (8 - r)) with (0 + (q + 1) * 8) by lia.
    replace (8 * q + r + 7) with (r - 1 + (q + 1) * 8) by lia.
    rewrite !Nat.div_add by lia.
    rewrite (Nat.div_small (r - 1)) by lia. reflexivity.
Qed.

(** The cut at the end marker leaves at least the carrier char and the
    tag of a late text. *)
Lemma late_text_cut_after_tag (c0 : Z) (text : list Z) :
  exists k,
    5 <= k
    /\ cleanTextOf (c0 :: lit "TXT:" ++ text ++ lit "<<EOF>")
       = take k (c0 :: lit "TXT:" ++ text ++ lit "<<EOF>").
Proof.
  unfold cleanTextOf, JS.splitHead, JS.includes.
  rewrite search_EOF_past_tag.
  destruct (JS.search (lit "<<EOF>>") (text ++ lit "<<EOF>") 0) as [k |];
    cbn [option_map].
  - exists (5 + k). split; [lia | reflexivity].
  - exists (length text + 11). split; [lia |].
    rewrite take_ge by (rewrite late_length; lia). reflexivity.
Qed.

(** The older copy on a late text: always the recovery branch, and so
    the TypeError. *)
Lemma attached_late_text_throws {crypto : CryptoJS}
    (c0 : Z) (text password : list Z) :
  Attached.processExtracted (c0 :: lit "TXT:" ++ text ++ lit "<<EOF>") password
  = Rejected ConstAssignment.
Proof.
  destruct (late_text_cut_after_tag c0 text) as (k & Hk & Hclean).
  destruct (late_prefix_untagged c0 text k) as [HE HT].
  apply attached_recovery_throws; rewrite Hclean; [exact HE | exact HT |].
  right. apply (late_prefix_has_tag c0 text k 20); lia.
Qed.

(** X19. The round trip of the older copy.  Whatever text of 8-bit
    chars the older copy embeds without a password in an image buffer
    that has a byte for every bit, its [extractData] is rejected, with
    any password, with the TypeError of the assignment to the constant
    [cleanText]. *)
Theorem attached_roundtrip_throws {crypto : CryptoJS}
    (pixels fuel : nat) (data text password : list Z) (st : store) :
  length data = 4 * pixels ->
  Forall (fun c => (0 <= c < 256)%Z) text ->
  Attached.hideData data text [] = inl st ->
  32 + 8 * length (dataToHideOf text []) <= 3 * pixels ->
  (Z.of_nat (length (dataToHideOf text [])) < 2 ^ 32)%Z ->
  length data - 32 < fuel ->
  Attached.extractData fuel (buf st) password
  = Some (Rejected ConstAssignment).
Proof.
  intros Himage Hbytes Hatt Hfit H32 Hfuel.
  destruct (framed_bytes (crypto := crypto) text Hbytes) as [_ Hframed].
  assert (hideData data text [] = Resolved st) as Hres.
  { rewrite attached_hideData_spec in Hatt;
      [| eapply Forall_impl; [exact Hframed | intros c Hc; cbv beta in *; lia]
       | exact H32].
    destruct (hideData data text []) as [st' | e]; [| discriminate Hatt].
    destruct (forallb _ _); [congruence | discriminate Hatt]. }
  destruct (embedded_image_read pixels data text st fuel
              Himage Hbytes Hres Hfit H32 Hfuel)
    as (Hvalid & c0 & bits & Hcoll & Hlen & Htext).
  unfold Attached.extractData. cbv zeta. rewrite Hvalid, Hcoll.
  rewrite attached_binaryToText_whole
    by (rewrite Hlen, Nat.mul_comm; apply Nat.Div0.mod_mul).
  rewrite Htext, attached_late_text_throws. reflexivity.
Qed.

(** ** The two copies of extractData *)

Lemma collected_whole_groups (fuel : nat) (data : list Z) (L : Z)
    (bits : list bool) :
  collectBits fuel data (L * 8) 32 0%Z [] = Some bits ->
  length bits mod 8 = 0.
Proof.
  intros Hrun.
  destruct (Z.le_gt_cases (L * 8) (Z.of_nat (length (colourIndices data 32))))
    as [Hle | Hgt];
    [| rewrite collectBits_too_few in Hrun by lia; discriminate Hrun].
  pose proof (collectBits_enough data (L * 8) (length data - 32) 32 0%Z []
                eq_refl ltac:(lia)) as Hfull.
  pose proof (collectBits_more_fuel _ (Nat.max fuel (S (length data - 32)))
                _ _ _ _ _ _ Hrun (Nat.le_max_l _ _)) as E1.
  pose proof (collectBits_more_fuel _ (Nat.max fuel (S (length data - 32)))
                _ _ _ _ _ _ Hfull (Nat.le_max_r _ _)) as E2.
  rewrite E1 in E2. apply (f_equal (option_map length)) in E2.
  cbn [option_map] in E2. injection E2 as E2. rewrite E2.
  cbn [app]. rewrite length_map, length_take.
  rewrite Nat.min_l by lia.
  replace (Z.to_nat (L * 8 - 0)) with (Z.to_nat L * 8) by lia.
  apply Nat.Div0.mod_mul.
Qed.

Lemma attached_processExtracted_cases {crypto : CryptoJS}
    (extractedText password : list Z) :
  Attached.processExtracted extractedText password
  = processExtracted extractedText password
  \/ Attached.processExtracted extractedText password
     = Rejected ConstAssignment.
Proof.
  unfold Attached.processExtracted, processExtracted, inferFormat. cbv zeta.
  destruct (negb (JS.includes (lit "<<EOF>>") extractedText)
            && negb (JS.includes (lit "TXT:") extractedText
                     || JS.includes (lit "ENC:") extractedText));
    [left; reflexivity |].
  destruct (JS.startsWith (lit "ENC:") (cleanTextOf extractedText));
    [left; reflexivity |].
  destruct (JS.startsWith (lit "TXT:") (cleanTextOf extractedText));
    [left; reflexivity |].
  destruct (JS.includes (lit "ENC:")
              (JS.substringTo 20 (cleanTextOf extractedText)));
    [right; reflexivity |].
  destruct (JS.includes (lit "TXT:")
              (JS.substringTo 20 (cleanTextOf extractedText)));
    [right; reflexivity | left; reflexivity].
Qed.

(** X20. The two copies of [extractData] differ in one thing only: on
    every buffer and password, and for every amount of fuel, the older
    copy settles as the static copy does (or, like it, has not settled
    yet), unless it is rejected with the TypeError of the assignment to
    the constant [cleanText]; its padding [binaryToText] makes no
    difference here, since the collection loop hands on whole groups of
    eight bits. *)
Theorem attached_extractData_agreement {crypto : CryptoJS}
    (fuel : nat) (data password : list Z) :
  Attached.extractData fuel data password = extractData fuel data password
  \/ Attached.extractData fuel data password
     = Some (Rejected ConstAssignment).
Proof.
  unfold Attached.extractData, extractData. cbv zeta.
  destruct ((readHeader data <=? 0)%Z
            || gtQ (readHeader data) (inject_Z (Z.of_nat (length data)) / 4)%Q);
    [left; reflexivity |].
  destruct (collectBits fuel data (readHeader data * 8) 32 0%Z [])
    as [bits |] eqn:Hrun; [| left; reflexivity].
  rewrite (attached_binaryToText_whole bits)
    by (eapply collected_whole_groups; exact Hrun).
  destruct (attached_processExtracted_cases (binaryToText bits) password)
    as [-> | ->]; [left | right]; reflexivity.
Qed.

(** ** Tag recovery in the two copies *)

(** What the branch for encrypted data gives, case by case. *)
Lemma decryptText_cases {crypto : CryptoJS} (processedText password : list Z) :
  (password = [] ->
   decryptText processedText password = Rejected PasswordRequired)
  /\ (forall decrypted,
        password <> [] ->
        AES_decrypt processedText password = Some decrypted ->
        decrypted <> [] ->
        decryptText processedText password = Resolved decrypted)
  /\ (password <> [] ->
      AES_decrypt processedText password = None
      \/ AES_decrypt processedText password = Some [] ->
      decryptText processedText password = Rejected DecryptionFailed).
Proof.
  unfold decryptText. split; [intros ->; reflexivity |]. split.
  - intros decrypted Hp Hd Hne.
    destruct password; [congruence |]. cbn [truthy negb]. rewrite Hd.
    destruct decrypted; [congruence | reflexivity].
  - intros Hp Hd. destruct password; [congruence |]. cbn [truthy negb].
    destruct Hd as [-> | ->]; reflexivity.
Qed.

Section TagRecovery.
Context {crypto : CryptoJS}.

(** C7. The inputs of the tag recovery: the text cut at the end marker
    does not start with 'ENC:' or 'TXT:', and one of the two lies within
    its first 20 chars.  On every such input the older copy assigns to
    its constant [cleanText], and its promise is rejected with that
    TypeError; it never returns content.  The static copy does what is
    meant: the text splits as junk, marker, content at the first
    occurrence of the marker ('ENC:' is looked for first), and the
    content goes the tagged way: for 'ENC:' it is decrypted with the
    password and the decrypted text is returned (no password, a failed
    decryption and an empty result are rejected), for 'TXT:' the content
    itself is returned. *)
Theorem tag_recovery_throws_in_older_copy (fuel : nat) (data password : list Z)
    (extractedBinary : list bool) (cleanText : list Z) :
  ~ ((readHeader data <= 0)%Z
     \/ (inject_Z (Z.of_nat (length data)) / 4 < inject_Z (readHeader data))%Q) ->
  collectBits fuel data (readHeader data * 8) 32 0%Z [] = Some extractedBinary ->
  cleanTextOf (binaryToText extractedBinary) = cleanText ->
  JS.startsWith (lit "ENC:") cleanText = false ->
  JS.startsWith (lit "TXT:") cleanText = false ->
  JS.includes (lit "ENC:") (JS.substringTo 20 cleanText) = true
  \/ JS.includes (lit "TXT:") (JS.substringTo 20 cleanText) = true ->
  Attached.extractData fuel data password = Some (Rejected ConstAssignment)
  /\ (JS.includes (lit "ENC:") (JS.substringTo 20 cleanText) = true ->
      exists junk content,
        cleanText = junk ++ lit "ENC:" ++ content
        /\ length junk + 4 <= 20
        /\ JS.search (lit "ENC:") cleanText 0 = Some (length junk)
        /\ inferFormat cleanText = (encrypted, content)
        /\ (password = [] ->
            extractData fuel data password = Some (Rejected PasswordRequired))
        /\ (forall decrypted,
              password <> [] ->
              AES_decrypt content password = Some decrypted ->
              decrypted <> [] ->
              extractData fuel data password = Some (Resolved decrypted))
        /\ (password <> [] ->
            AES_decrypt content password = None
            \/ AES_decrypt content password = Some [] ->
            extractData fuel data password = Some (Rejected DecryptionFailed)))
  /\ (JS.includes (lit "ENC:") (JS.substringTo 20 cleanText) = false ->
      JS.includes (lit "TXT:") (JS.substringTo 20 cleanText) = true ->
      exists junk content,
        cleanText = junk ++ lit "TXT:" ++ content
        /\ length junk + 4 <= 20
        /\ JS.search (lit "TXT:") cleanText 0 = Some (length junk)
        /\ inferFormat cleanText = (plaintext, content)
        /\ extractData fuel data password = Some (Resolved content)).
Proof.
  intros Hvalid Hbits <- HE HT Hin.
  rewrite (extractData_valid fuel data password Hvalid), Hbits.
  split; [| split].
  - unfold Attached.extractData. cbv zeta.
    assert ((readHeader data <=? 0)%Z
            || gtQ (readHeader data) (inject_Z (Z.of_nat (length data)) / 4)%Q
            = false) as ->.
    { apply orb_false_iff. split.
      - apply Z.leb_gt. apply Z.nle_gt. intros H. apply Hvalid. left. exact H.
      - destruct (gtQ (readHeader data)
                    (inject_Z (Z.of_nat (length data)) / 4)%Q) eqn:E;
          [| reflexivity].
        exfalso. apply Hvalid. right. apply gtQ_spec. exact E. }
    rewrite Hbits.
    rewrite (attached_binaryToText_whole extractedBinary)
      by (eapply collected_whole_groups; exact Hbits).
    rewrite (attached_recovery_throws _ password HE HT Hin). reflexivity.
  - intros Henc.
    destruct (recover_ENC _ password HE HT Henc)
      as (junk & content & H1 & H2 & H3 & H4 & H5).
    exists junk, content. rewrite H5.
    destruct (decryptText_cases content password) as (D1 & D2 & D3).
    repeat split; try assumption.
    + intros Hp. rewrite (D1 Hp). reflexivity.
    + intros decrypted Hp Hd Hne. rewrite (D2 decrypted Hp Hd Hne). reflexivity.
    + intros Hp Hd. rewrite (D3 Hp Hd). reflexivity.
  - intros Hno Htxt.
    destruct (recover_TXT _ password HE HT Hno Htxt)
      as (junk & content & H1 & H2 & H3 & H4 & H5).
    exists junk, content. rewrite H5. auto.
Qed.
End TagRecovery.

(** ** The further properties at work on examples *)

Lemma hello_bytes : Forall (fun c => (0 <= c < 256)%Z) (lit "hello").
Proof. repeat constructor; lia. Qed.

Lemma hello_fits :
  32 + 8 * length (dataToHideOf (crypto := plainCrypto) (lit "hello") [])
  <= 3 * 100.
Proof. vm_compute. lia. Qed.

Lemma hello_below_2_32 :
  (Z.of_nat (length (dataToHideOf (crypto := plainCrypto) (lit "hello") []))
   < 2 ^ 32)%Z.
Proof. vm_compute. reflexivity. Qed.

Lemma caesar_round_trip_witness :
  Encryption.caesarDecipher (lib := Encryption.plainLibrary)
    (lit "Khoor, Zruog!") (Encryption.ShiftText (lit "3"))
  = Encryption.Returned (lit "Hello, World!").
Proof.
  exact (proj1 (caesar_round_trip (lib := Encryption.plainLibrary)
                  (lit "Hello, World!") (Encryption.ShiftText (lit "3")) 3
                  eq_refl ltac:(lia))).
Defined.

Lemma caesar_keeps_shape_witness :
  exists ciphered,
    Encryption.caesarCipher (lib := Encryption.plainLibrary)
      (lit "Zebra-1") (Encryption.ShiftNumber 1)
    = Encryption.Returned ciphered
    /\ length ciphered = length (lit "Zebra-1").
Proof.
  destruct (caesar_keeps_shape (lib := Encryption.plainLibrary)
              (lit "Zebra-1") (Encryption.ShiftNumber 1) 1
              eq_refl ltac:(lia)) as (ciphered & H1 & H2 & _).
  exists ciphered. split; assumption.
Defined.

Lemma caesar_compose_witness :
  Encryption.caesarCipher (lib := Encryption.plainLibrary)
    (lit "Uryyb") (Encryption.ShiftNumber 13)
  = Encryption.Returned (lit "Hello").
Proof.
  exact (caesar_compose (lib := Encryption.plainLibrary)
           (lit "Hello") 13 13 ltac:(lia) ltac:(lia)).
Defined.

Lemma encrypt_decrypt_caesar_witness :
  Encryption.decrypt (lib := Encryption.plainLibrary)
    (lit "Haahjr ha khdu") [] (lit "caesar") (lit "base64")
    (Some (Encryption.ShiftText (lit "7")))
  = Encryption.Returned (lit "Attack at dawn").
Proof.
  exact (encrypt_decrypt_caesar (lib := Encryption.plainLibrary)
           (lit "Attack at dawn") [] [] (lit "base64") (lit "base64")
           (Some (Encryption.ShiftText (lit "7"))) 7
           ltac:(discriminate) eq_refl ltac:(lia)).
Defined.

Lemma encrypt_checks_witness :
  Encryption.encrypt (lib := Encryption.plainLibrary)
    (lit "hi") [] (lit "rot13") (lit "base64") None
  = Encryption.Threw "Please enter an encryption key"
  /\ Encryption.encrypt (lib := Encryption.plainLibrary)
       (lit "hi") (lit "k") (lit "rot13") (lit "base64") None
     = Encryption.Threw "Encryption failed: Unknown encryption algorithm"
  /\ Encryption.encrypt (lib := Encryption.plainLibrary)
       (lit "hi") [] (lit "caesar") (lit "base64")
       (Some (Encryption.ShiftText (lit "26")))
     = Encryption.Threw
         "Encryption failed: Caesar shift must be between 1 and 25".
Proof.
  destruct (encrypt_checks (lib := Encryption.plainLibrary)
              (lit "hi") (lit "k") (lit "rot13") (lit "base64") None)
    as (_ & H2 & H3 & _).
  destruct (encrypt_checks (lib := Encryption.plainLibrary)
              (lit "hi") [] (lit "caesar") (lit "base64")
              (Some (Encryption.ShiftText (lit "26"))))
    as (_ & _ & _ & H4 & _).
  split; [apply H2; try discriminate; reflexivity |].
  split; [apply H3; try discriminate; reflexivity |].
  apply H4; [discriminate |].
  intros s Hs. vm_compute in Hs. injection Hs as <-. right. lia.
Defined.

(** A number from 10^21 on is read through its exponent form: the
    number 10^21 is printed as '1e+21' and read as 1. *)
Lemma caesar_shift_in_exponent_form :
  Encryption.exponentForm (Library := Encryption.plainLibrary) (10 ^ 21)
  = lit "1e+21"
  /\ Encryption.parseShift (lib := Encryption.plainLibrary)
       (Encryption.ShiftNumber (10 ^ 21)) = Some 1%Z
  /\ Encryption.encrypt (lib := Encryption.plainLibrary)
       (lit "abc") [] (lit "caesar") (lit "base64")
       (Some (Encryption.ShiftNumber (10 ^ 21)))
     = Encryption.Returned (lit "bcd").
Proof. repeat split; vm_compute; reflexivity. Qed.

Lemma numberToBinary_width_witness :
  JS.parseInt2 (numberToBinary 16 32) = 16%Z
  /\ length (numberToBinary 16 32) = 32.
Proof.
  destruct (numberToBinary_width 16 32 ltac:(lia) ltac:(lia))
    as (H1 & H2 & _).
  split; [exact H1 | apply H2; reflexivity].
Defined.

Lemma textToBinary_digits_witness :
  length (textToBinary (lit "hi")) = 8 * length (lit "hi").
Proof.
  apply (proj2 (textToBinary_digits (lit "hi")
                  ltac:(repeat constructor; lia)));
    repeat constructor; lia.
Defined.

Lemma shown_capacity_counts_the_frame_witness :
  maxDataSizeOf (blank 100) = calculateMaxTextLength 10 10
  /\ exists e,
       hideData (crypto := plainCrypto) (blank 100) (replicate 27 97%Z) []
       = Rejected e.
Proof.
  destruct (shown_capacity_counts_the_frame (crypto := plainCrypto)
              10 10 (blank 100) (replicate 27 97%Z) eq_refl) as [H1 H2].
  split; [exact H1 | apply H2; vm_compute; reflexivity].
Defined.

Lemma attached_hideData_agreement_witness :
  Attached.hideData (crypto := plainCrypto) (blank 100) [960%Z] []
  = inr Attached.InvalidCount
  /\ exists st,
       hideData (crypto := plainCrypto) (blank 100) [960%Z] [] = Resolved st.
Proof.
  split; [| eexists; vm_compute; reflexivity].
  rewrite (attached_hideData_agreement (crypto := plainCrypto)
             (blank 100) [960%Z] []);
    [vm_compute; reflexivity | repeat constructor; lia | vm_compute; reflexivity].
Defined.

Lemma attached_shown_capacity_is_safe_witness :
  Attached.calculateMaxTextLength 10 10 = 17%Z
  /\ exists st,
       Attached.hideData (crypto := plainCrypto)
         (blank 100) (replicate 17 97%Z) [] = inl st
       /\ hideData (crypto := plainCrypto) (blank 100) (replicate 17 97%Z) []
          = Resolved st
       /\ forall i,
            i < length (textToBinary
                          (dataToHideOf (crypto := plainCrypto)
                             (replicate 17 97%Z) [])) ->
            addr i < length (blank 100).
Proof.
  split; [reflexivity |].
  apply (attached_shown_capacity_is_safe (crypto := plainCrypto) 10 10);
    [reflexivity | apply Forall_replicate; lia
     | vm_compute; intros H; discriminate H | vm_compute; reflexivity].
Defined.

Lemma embedding_is_gentle_witness :
  length (buf helloStore) = length (blank 100)
  /\ exists y,
       buf helloStore !! 47 = Some y
       /\ (0 <= y < 256)%Z /\ (y / 2 = 0 / 2)%Z /\ (Z.abs (y - 0) <= 1)%Z.
Proof.
  destruct (embedding_is_gentle (crypto := plainCrypto)
              (blank 100) (lit "hello") [] helloStore
              ltac:(apply Forall_replicate; lia) helloStore_resolved)
    as [H1 H2].
  split; [exact H1 | apply (H2 47 0%Z); reflexivity].
Defined.

Lemma last_embedding_wins_witness :
  hideData (crypto := plainCrypto) (buf helloStore) crowdedText []
  = Resolved crowdedStore.
Proof.
  apply (last_embedding_wins (crypto := plainCrypto)
           (blank 100) (lit "hello") [] crowdedText [] helloStore crowdedStore);
    [exact helloStore_resolved | vm_compute; reflexivity | vm_compute; lia].
Defined.

Lemma aligned_image_decodes_witness :
  extractData (crypto := plainCrypto) 400
    (carrierOf (lit "TXT:hi<<EOF>>")) (lit "any")
  = Some (Resolved (lit "hi")).
Proof.
  apply (aligned_image_decodes (crypto := plainCrypto)
           (carrierOf (lit "TXT:hi<<EOF>>")) (lit "hi") (lit "any") 400);
    [repeat constructor; lia | reflexivity | vm_compute; reflexivity
     | vm_compute; lia | vm_compute; reflexivity | vm_compute; lia].
Defined.

Lemma extraction_settles_iff_witness :
  exists fuel r,
    extractData (crypto := plainCrypto) fuel (buf helloStore) [] = Some r.
Proof.
  apply (proj2 (extraction_settles_iff (crypto := plainCrypto)
                  (buf helloStore) [] 100
                  ltac:(vm_compute; reflexivity)
                  ltac:(vm_compute; split; [reflexivity | intros H; discriminate H]))).
  vm_compute. intros H. discriminate H.
Defined.

Lemma roundtrip_returns_cut_marker_witness :
  extractData (crypto := plainCrypto) 400 (buf helloStore) (lit "any")
  = Some (Resolved (lit "hello<<EOF>")).
Proof.
  exact (roundtrip_returns_cut_marker (crypto := plainCrypto)
           100 400 (blank 100) (lit "hello") (lit "any") helloStore
           eq_refl hello_bytes eq_refl eq_refl helloStore_resolved
           hello_fits hello_below_2_32 ltac:(vm_compute; lia)).
Defined.

Lemma attached_roundtrip_throws_witness :
  Attached.extractData (crypto := plainCrypto) 400 (buf helloStore) (lit "any")
  = Some (Rejected ConstAssignment).
Proof.
  exact (attached_roundtrip_throws (crypto := plainCrypto)
           100 400 (blank 100) (lit "hello") (lit "any") helloStore
           eq_refl hello_bytes ltac:(vm_compute; reflexivity)
           hello_fits hello_below_2_32 ltac:(vm_compute; lia)).
Defined.

Lemma roundtrip_never_returns_text_witness :
  hideData (crypto := plainCrypto) (blank 100) (lit "hello") []
  = Resolved helloStore
  /\ extractData (crypto := plainCrypto) 400 (buf helloStore) []
     <> Some (Resolved (lit "hello")).
Proof.
  split; [exact helloStore_resolved |].
  exact (roundtrip_never_returns_text (crypto := plainCrypto)
           100 400 (blank 100) (lit "hello") helloStore
           eq_refl hello_bytes helloStore_resolved
           hello_fits hello_below_2_32).
Defined.

Lemma hideData_accepts_truncation_witness :
  exists st,
    hideData (crypto := plainCrypto) (blank 100) crowdedText [] = Resolved st
    /\ length (textToBinary (dataToHideOf (crypto := plainCrypto) crowdedText []))
       = 8 * length (dataToHideOf (crypto := plainCrypto) crowdedText [])
    /\ length (blank 100)
       <= addr (length (textToBinary
                          (dataToHideOf (crypto := plainCrypto) crowdedText []))
                - 1).
Proof.
  apply (hideData_accepts_truncation (crypto := plainCrypto) 100);
    [reflexivity | apply Forall_replicate; lia |].
  vm_compute. split; [reflexivity | intros H; discriminate H].
Defined.

Lemma lateEncCarrier_header_valid :
  ~ ((readHeader lateEncCarrier <= 0)%Z
     \/ (inject_Z (Z.of_nat (length lateEncCarrier)) / 4
         < inject_Z (readHeader lateEncCarrier))%Q).
Proof.
  vm_compute. intros [H | H]; [apply H; reflexivity | discriminate H].
Qed.

Lemma lateEncBits_collected :
  collectBits 400 lateEncCarrier (readHeader lateEncCarrier * 8) 32 0%Z []
  = Some lateEncBits.
Proof. vm_compute. reflexivity. Qed.

Lemma tag_recovery_throws_in_older_copy_witness :
  cleanTextOf (binaryToText lateEncBits) = lit "~ENC:terces"
  /\ Attached.extractData (crypto := reversingCrypto) 400 lateEncCarrier (lit "pw")
     = Some (Rejected ConstAssignment)
  /\ extractData (crypto := reversingCrypto) 400 lateEncCarrier (lit "pw")
     = Some (Resolved (lit "secret"))
  /\ extractData (crypto := reversingCrypto) 400 lateEncCarrier []
     = Some (Rejected PasswordRequired).
Proof.
  split; [vm_compute; reflexivity |].
  assert (forall password,
            Attached.extractData (crypto := reversingCrypto) 400
              lateEncCarrier password
            = Some (Rejected ConstAssignment)
            /\ exists junk content,
                 lit "~ENC:terces" = junk ++ lit "ENC:" ++ content
                 /\ JS.search (lit "ENC:") (lit "~ENC:terces") 0
                    = Some (length junk)
                 /\ (password = [] ->
                     extractData (crypto := reversingCrypto) 400
                       lateEncCarrier password
                     = Some (Rejected PasswordRequired))
                 /\ (forall decrypted,
                       password <> [] ->
                       AES_decrypt (CryptoJS := reversingCrypto) content password
                       = Some decrypted ->
                       decrypted <> [] ->
                       extractData (crypto := reversingCrypto) 400
                         lateEncCarrier password
                       = Some (Resolved decrypted))) as Hrun.
  { intros password.
    destruct (tag_recovery_throws_in_older_copy (crypto := reversingCrypto)
                400 lateEncCarrier password lateEncBits (lit "~ENC:terces")
                lateEncCarrier_header_valid lateEncBits_collected
                ltac:(vm_compute; reflexivity) eq_refl eq_refl
                (or_introl eq_refl))
      as (Hold & Henc & _).
    split; [exact Hold |].
    destruct (Henc eq_refl)
      as (junk & content & Hsplit & _ & Hsearch & _ & Hnone & Hsome & _).
    exists junk, content. auto. }
  split; [exact (proj1 (Hrun (lit "pw"))) |]. split.
  - destruct (proj2 (Hrun (lit "pw")))
      as (junk & content & Hsplit & Hsearch & _ & Hsome).
    assert (content = lit "terces") as ->.
    { destruct junk as [| j [| j' junk]]; vm_compute in Hsearch;
        try discriminate Hsearch.
      vm_compute in Hsplit. injection Hsplit as _ Hcontent.
      symmetry. exact Hcontent. }
    apply Hsome; [discriminate | reflexivity | discriminate].
  - destruct (proj2 (Hrun []))
      as (junk & content & _ & _ & Hnone & _).
    apply Hnone. reflexivity.
Defined.
